(** * The dangerous-git hook (cluster-hooks/block-dangerous-git.py)

    A shallow embedding of the PreToolUse hook and the properties of its
    rule table, of [check_command] and of [main].

    Strings are [string]/[list ascii]; a character stands for the code
    point of the same number (0 to 255), and the two character classes the
    patterns rely on, [\s] and [\w], are written out as Python's [re] has
    them on that range for [str] patterns. *)

From Stdlib Require Import ZArith Bool List Ascii String.
From stdpp Require Import base option list gmap strings.

Local Open Scope string_scope.
Local Open Scope list_scope.

(** ** Characters and the classes of [re] *)

Module Chars.

Definition code (c : ascii) : N := N_of_ascii c.

Definition between (lo hi : N) (c : ascii) : bool :=
  ((lo <=? code c) && (code c <=? hi))%N.

(** [\s]: the characters for which [str.isspace] holds. *)
Definition is_space (c : ascii) : bool :=
  between 9 13 c || between 28 32 c || between 133 133 c || between 160 160 c.

(** [\w]: alphanumeric characters and the underscore. *)
Definition is_word (c : ascii) : bool :=
  between 48 57 c || between 65 90 c || between 95 95 c || between 97 122 c
  || between 170 170 c || between 178 179 c || between 181 181 c
  || between 185 186 c || between 188 190 c || between 192 214 c
  || between 216 246 c || between 248 255 c.

Definition dq : string := String (ascii_of_nat 34) EmptyString.
Definition nl : string := String (ascii_of_nat 10) EmptyString.

End Chars.

(** ** The fragment of regular expressions the rule table is written in *)

Module Re.
Import Chars.

Inductive charset : Type :=
| Lit (c : ascii)
| OneOf (cs : list ascii)
| Space
| NotSpace.

Inductive quant : Type := Once | Star | Plus.

Inductive item : Type :=
| Atom (cs : charset) (q : quant)
| WordBoundary
| EndAnchor.

Definition regex : Type := list item.

(** *** Reading a pattern *)

Inductive token : Type :=
| TSet (cs : charset)
| TQuant (q : quant)
| TBoundary
| TEnd.

Definition is_meta (c : ascii) : bool :=
  existsb (Ascii.eqb c) (list_ascii_of_string ".^?{}()|]").

Definition is_class_meta (c : ascii) : bool :=
  existsb (Ascii.eqb c) (list_ascii_of_string "\^-[").

(** [cls] holds the members read so far while inside [[...]]. *)
Fixpoint tokens (cls : option (list ascii)) (s : list ascii)
  : option (list token) :=
  match cls, s with
  | Some acc, c :: s' =>
      if Ascii.eqb c "]" then
        match acc with
        | [] => None
        | _ => cons (TSet (OneOf (rev acc))) <$> tokens None s'
        end
      else if is_class_meta c then None
      else tokens (Some (c :: acc)) s'
  | Some _, [] => None
  | None, [] => Some []
  | None, c :: s' =>
      if Ascii.eqb c "\" then
        match s' with
        | e :: s'' =>
            if Ascii.eqb e "b" then cons TBoundary <$> tokens None s''
            else if Ascii.eqb e "s" then cons (TSet Space) <$> tokens None s''
            else if Ascii.eqb e "S" then cons (TSet NotSpace) <$> tokens None s''
            else if Ascii.eqb e "." then cons (TSet (Lit e)) <$> tokens None s''
            else None
        | [] => None
        end
      else if Ascii.eqb c "[" then tokens (Some []) s'
      else if Ascii.eqb c "$" then cons TEnd <$> tokens None s'
      else if Ascii.eqb c "*" then cons (TQuant Star) <$> tokens None s'
      else if Ascii.eqb c "+" then cons (TQuant Plus) <$> tokens None s'
      else if is_meta c then None
      else cons (TSet (Lit c)) <$> tokens None s'
  end.

Fixpoint items (ts : list token) : option regex :=
  match ts with
  | [] => Some []
  | TSet cs :: ts' =>
      match ts' with
      | TQuant q :: ts'' => cons (Atom cs q) <$> items ts''
      | _ => cons (Atom cs Once) <$> items ts'
      end
  | TBoundary :: ts' => cons WordBoundary <$> items ts'
  | TEnd :: ts' => cons EndAnchor <$> items ts'
  | TQuant _ :: _ => None
  end.

(** [re.compile], on the fragment; [None] is a pattern outside it. *)
Definition compile (pattern : string) : option regex :=
  tokens None (list_ascii_of_string pattern) ≫= items.

(** *** Matching *)

Definition in_set (cs : charset) (c : ascii) : bool :=
  match cs with
  | Lit d => Ascii.eqb c d
  | OneOf ds => existsb (Ascii.eqb c) ds
  | Space => is_space c
  | NotSpace => negb (is_space c)
  end.

Definition word_at (c : option ascii) : bool :=
  match c with Some c => is_word c | None => false end.

(** [\b]: exactly one of the characters around the position is a word
    character; the two ends of the text count as non-word. *)
Definition at_boundary (prev : option ascii) (s : list ascii) : bool :=
  xorb (word_at prev) (word_at (head s)).

(** [$] without MULTILINE: the end of the text, or just before a newline
    that ends the text. *)
Definition at_end (s : list ascii) : bool :=
  match s with
  | [] => true
  | [c] => Ascii.eqb c (ascii_of_nat 10)
  | _ => false
  end.

(** Greedy repetition of a set, then the continuation [k]; on failure one
    repetition is given back at a time. *)
Fixpoint repeat_set (cs : charset) (k : option ascii -> list ascii -> bool)
    (prev : option ascii) (s : list ascii) {struct s} : bool :=
  match s with
  | c :: s' => in_set cs c && repeat_set cs k (Some c) s'
  | [] => false
  end || k prev s.

(** Does [r] match at this position? [prev] is the character before it. *)
Fixpoint match_here (r : regex) : option ascii -> list ascii -> bool :=
  match r with
  | [] => fun _ _ => true
  | WordBoundary :: r' => fun prev s => at_boundary prev s && match_here r' prev s
  | EndAnchor :: r' => fun prev s => at_end s && match_here r' prev s
  | Atom cs Once :: r' => fun _ s =>
      match s with
      | c :: s' => in_set cs c && match_here r' (Some c) s'
      | [] => false
      end
  | Atom cs Star :: r' => repeat_set cs (match_here r')
  | Atom cs Plus :: r' => fun _ s =>
      match s with
      | c :: s' => in_set cs c && repeat_set cs (match_here r') (Some c) s'
      | [] => false
      end
  end.

(** Every start position from here to the end of the text, in order. *)
Fixpoint search_from (r : regex) (prev : option ascii) (s : list ascii) : bool :=
  match_here r prev s
  || match s with
     | c :: s' => search_from r (Some c) s'
     | [] => false
     end.

(** The truth value of [re.search(pattern, text)] for a [str] text;
    [None] is a pattern outside the fragment. *)
Definition search (pattern text : string) : option bool :=
  r ← compile pattern; Some (search_from r None (list_ascii_of_string text)).

(** *** Notions the facts about the matcher are stated with *)

(** The character in front of what follows a prefix [pre]. *)
Definition prev_after (prev : option ascii) (pre : list ascii) : option ascii :=
  match last pre with
  | Some c => Some c
  | None => prev
  end.

(** The start positions inside [pre] of a text [pre ++ tail]. *)
Fixpoint search_in (r : regex) (prev : option ascii) (pre tail : list ascii) : bool :=
  match pre with
  | [] => false
  | c :: pre' => match_here r prev (pre ++ tail) || search_in r (Some c) pre' tail
  end.

Definition is_end_anchor (i : item) : bool :=
  match i with EndAnchor => true | _ => false end.

(** A pattern without [$]. *)
Definition unanchored (r : regex) : bool := negb (existsb is_end_anchor r).

(** The sets a match has to take a character from. *)
Definition mandatory (r : regex) : list charset :=
  omap (fun i => match i with
                 | Atom cs Once | Atom cs Plus => Some cs
                 | _ => None
                 end) r.

Definition has_char (cs : charset) (s : list ascii) : Prop :=
  exists c, In c s /\ in_set cs c = true.

(** The texts a pattern can cover, the two assertions left aside. *)
Fixpoint shape (r : regex) (w : list ascii) : Prop :=
  match r with
  | [] => w = []
  | Atom cs Once :: r' =>
      exists c w', w = c :: w' /\ in_set cs c = true /\ shape r' w'
  | Atom cs Star :: r' =>
      exists u w', w = u ++ w' /\ Forall (fun c => in_set cs c = true) u /\ shape r' w'
  | Atom cs Plus :: r' =>
      exists c u w', w = c :: u ++ w' /\ in_set cs c = true
                     /\ Forall (fun c => in_set cs c = true) u /\ shape r' w'
  | _ :: r' => shape r' w
  end.

Definition covers (P : list ascii -> Prop) (s : list ascii) : Prop :=
  exists w rest, s = w ++ rest /\ P w.

(** What it means for [r] to match the text [w] when [prev] stands before
    it and [rest] after it: the matcher is compared with this. *)
Fixpoint sem (r : regex) (prev : option ascii) (w rest : list ascii) : Prop :=
  match r with
  | [] => w = []
  | WordBoundary :: r' => at_boundary prev (w ++ rest) = true /\ sem r' prev w rest
  | EndAnchor :: r' => at_end (w ++ rest) = true /\ sem r' prev w rest
  | Atom cs Once :: r' =>
      exists c w', w = c :: w' /\ in_set cs c = true /\ sem r' (Some c) w' rest
  | Atom cs Star :: r' =>
      exists u w', w = u ++ w' /\ Forall (fun c => in_set cs c = true) u
                   /\ sem r' (prev_after prev u) w' rest
  | Atom cs Plus :: r' =>
      exists c u w', w = c :: u ++ w' /\ in_set cs c = true
                     /\ Forall (fun c => in_set cs c = true) u
                     /\ sem r' (prev_after (Some c) u) w' rest
  end.

(** The pattern that spells out a text. *)
Definition lits (s : string) : regex :=
  map (fun c => Atom (Lit c) Once) (list_ascii_of_string s).

End Re.

(** ** Python values, exceptions and the process *)

Module Py.

(** What [json.load] can return. *)
#[local] Set Warnings "-register-all".
Inductive value : Type :=
| VNone
| VBool (b : bool)
| VInt (z : Z)
| VFloat (bits : Z)
| VStr (s : string)
| VList (l : list value)
| VDict (m : gmap string value).

Inductive exn : Type :=
| SystemExit (code : Z)
| JSONDecodeError
| AttributeError
| TypeError
| ReError.

(** Standard input as [json.load] sees it. *)
Inductive payload : Type :=
| Malformed
| Parsed (v : value).

(** A computation writes objects to standard output ([print(json.dumps v)]
    is recorded as [v]) and returns or raises. *)
Definition M (A : Type) : Type := list value -> (exn + A) * list value.

Definition ret {A} (a : A) : M A := fun out => (inr a, out).

Definition bind {A B} (m : M A) (f : A -> M B) : M B :=
  fun out =>
    match m out with
    | (inr a, out') => f a out'
    | (inl e, out') => (inl e, out')
    end.

Definition raise {A} (e : exn) : M A := fun out => (inl e, out).

Definition try_except {A} (m : M A) (handler : exn -> M A) : M A :=
  fun out =>
    match m out with
    | (inl e, out') => handler e out'
    | r => r
    end.

Definition print_json (v : value) : M unit := fun out => (inr tt, out ++ [v]).

Definition sys_exit {A} (code : Z) : M A := raise (SystemExit code).

(** [json.load(sys.stdin)] *)
Definition json_load (stdin : payload) : M value :=
  match stdin with
  | Parsed v => ret v
  | Malformed => raise JSONDecodeError
  end.

(** [obj.get(key, default)]: only a dict has the method. *)
Definition get (obj : value) (key : string) (default : value) : M value :=
  match obj with
  | VDict m => ret (from_option id default (m !! key))
  | _ => raise AttributeError
  end.

(** [v != s] for a string constant [s]. *)
Definition ne_str (v : value) (s : string) : bool :=
  match v with
  | VStr t => negb (String.eqb t s)
  | _ => true
  end.

(** [re.search(pattern, text)] as a truth value: a text that is not a
    [str] is a type error. *)
Definition re_search (pattern : string) (text : value) : M bool :=
  match text with
  | VStr s =>
      match Re.search pattern s with
      | Some b => ret b
      | None => raise ReError
      end
  | _ => raise TypeError
  end.

(** What the caller of the process observes. *)
Record process : Type := Process {
  stdout : list value;
  exit_status : Z;
  uncaught : option exn
}.

Definition run (m : M unit) : process :=
  match m [] with
  | (inr _, out) => Process out 0 None
  | (inl (SystemExit code), out) => Process out code None
  | (inl e, out) => Process out 1 (Some e)
  end.

End Py.

(** ** The hook *)

Import Chars Py.

Notation "'let!' x ':=' m 'in' k" := (bind m (fun x => k))
  (at level 10, x name, m at level 100, k at level 200).
Notation "m '>>' k" := (bind m (fun _ => k))
  (at level 61, k at level 61, right associativity).

Definition wip_commit : string :=
  "Commit your work first: 'git add -A && git commit -m " +:+ dq +:+ "WIP: ..." +:+ dq +:+ "'".

(** Each entry: (pattern, reason, safe_alternative). *)
Definition DANGEROUS_PATTERNS : list (string * string * string) := [
  ("\bgit\s+stash\b",
   "git stash hides work from other agents",
   "Use 'git add -A && git commit -m " +:+ dq +:+ "WIP: ..." +:+ dq +:+ "' instead");

  ("\bgit\s+checkout\s+--\s+\S+",
   "git checkout -- <file> discards uncommitted changes permanently",
   wip_commit);

  ("\bgit\s+checkout\s+-f\b",
   "git checkout -f discards ALL local changes permanently",
   wip_commit);

  ("\bgit\s+checkout\s+\.\s*$",
   "git checkout . discards all changes in the directory",
   wip_commit);

  ("\bgit\s+reset\s+--hard\b",
   "git reset --hard destroys commits AND uncommitted changes",
   "Use 'git reset --soft' to keep changes, or 'git revert' to undo commits");

  ("\bgit\s+push\s+--force\b",
   "git push --force rewrites remote history",
   "Use 'git push' (normal push) or 'git pull --rebase' to sync");

  ("\bgit\s+push\s+-f\b",
   "git push -f rewrites remote history",
   "Use 'git push' (normal push) or 'git pull --rebase' to sync");

  ("\bgit\s+clean\s+-[fd]*f",
   "git clean -f deletes untracked files permanently",
   "Use 'git clean -n' (dry run) first to see what would be deleted");

  ("\bgit\s+branch\s+-D\b",
   "git branch -D force deletes unmerged branch",
   "Use 'git branch -d' (lowercase) which only deletes merged branches");

  ("\bgit\s+rebase\s+-i\b",
   "git rebase -i is interactive and will hang in non-interactive mode",
   "Use 'git reset --soft HEAD~N' to undo commits while keeping changes");

  ("\bgit\s+add\s+-[ip]\b",
   "git add -i/-p is interactive and will hang in non-interactive mode",
   "Use 'git add <files>' or 'git add -A' instead")
].

(** The loop of [check_command] over a table: the first entry whose
    pattern is found decides, and the entries after it are not looked at. *)
Fixpoint check_in (table : list (string * string * string)) (command : value)
  : M (option (bool * string * string)) :=
  match table with
  | [] => ret None
  | (pattern, reason, alternative) :: table' =>
      let! found := re_search pattern command in
      if found then ret (Some (true, reason, alternative))
      else check_in table' command
  end.

Definition check_command (command : value) : M (option (bool * string * string)) :=
  check_in DANGEROUS_PATTERNS command.

Definition deny_reason (reason alternative : string) : string :=
  "[GIT-SAFE BLOCKED] " +:+ reason +:+ nl +:+ nl
  +:+ "Safe alternative: " +:+ alternative +:+ nl +:+ nl
  +:+ "NO BYPASS EXISTS. Use the safe alternative above.".

Definition deny_output (reason alternative : string) : value :=
  VDict {[ "hookSpecificOutput" :=
    VDict (<[ "hookEventName" := VStr "PreToolUse" ]>
           (<[ "permissionDecision" := VStr "deny" ]>
            {[ "permissionDecisionReason" := VStr (deny_reason reason alternative) ]})) ]}.

Definition main (environ : gmap string string) (stdin : payload) : M unit :=
  if negb (bool_decide (environ !! "ZEROSHOT_WORKTREE" = Some "1")) then
    sys_exit 0
  else
    let! input_data :=
      try_except (json_load stdin)
        (fun e => match e with
                  | JSONDecodeError => sys_exit 0
                  | _ => raise e
                  end) in
    let! tool_name := get input_data "tool_name" (VStr "") in
    if ne_str tool_name "Bash" then sys_exit 0
    else
      let! tool_input := get input_data "tool_input" (VDict ∅) in
      let! command := get tool_input "command" (VStr "") in
      let! result := check_command command in
      match result with
      | Some (_, reason, alternative) =>
          print_json (deny_output reason alternative) >>
          sys_exit 0
      | None => sys_exit 0
      end.

(** The request the host sends for a shell command. *)
Definition bash_request (command : value) : value :=
  VDict (<[ "tool_name" := VStr "Bash" ]>
         {[ "tool_input" := VDict {[ "command" := command ]} ]}).

Definition worktree_env : gmap string string := {[ "ZEROSHOT_WORKTREE" := "1" ]}.


(** *** Notions the facts about the hook are stated with *)

Abbreviation chars := list_ascii_of_string.

Abbreviation rule := (string * string * string)%type.

Definition pattern_of (e : rule) : string := e.1.1.

Definition misses (s : string) (e : rule) : Prop :=
  Re.search (pattern_of e) s = Some false.

Definition compiles (e : rule) : Prop := is_Some (Re.compile (pattern_of e)).

(** [e] is the first entry of the table found in [s]. *)
Definition first_found (s : string) (e : rule) : Prop :=
  exists before after,
    DANGEROUS_PATTERNS = before ++ e :: after
    /\ Forall (misses s) before
    /\ Re.search (pattern_of e) s = Some true.

(** The text before a position ends, or the text after it starts, with
    something other than a word character (or is empty). *)
Definition ends_nonword (pre : string) : Prop :=
  Re.word_at (last (chars pre)) = false.

Definition starts_nonword (post : string) : Prop :=
  Re.word_at (head (chars post)) = false.

(** [needle in hay] *)
Fixpoint contains (needle hay : string) : bool :=
  String.prefix needle hay
  || match hay with
     | String _ hay' => contains needle hay'
     | EmptyString => false
     end.

(** [output["hookSpecificOutput"][key]] of a printed object. *)
Definition hook_field (key : string) (output : value) : option value :=
  match output with
  | VDict m =>
      match m !! "hookSpecificOutput" with
      | Some (VDict h) => h !! key
      | _ => None
      end
  | _ => None
  end.

(** ** Facts about the matcher *)

Module ReFacts.
Import Re.

Lemma chars_app (a b : string) : chars (a +:+ b) = chars a ++ chars b.
Proof. induction a as [|c a IH]; simpl; [reflexivity | now rewrite IH]. Qed.

(** The character before a position matters only through [\b]. *)
Lemma repeat_set_prev cs k prev prev' s :
  (forall t, k prev t = k prev' t) ->
  repeat_set cs k prev s = repeat_set cs k prev' s.
Proof. intros Hk. destruct s; simpl; now rewrite Hk. Qed.

Lemma match_here_prev r : forall prev prev' s,
  word_at prev = word_at prev' -> match_here r prev s = match_here r prev' s.
Proof.
  induction r as [|[cs [| |]| |] r IH]; intros prev prev' s Hw; simpl;
    try reflexivity.
  - apply repeat_set_prev. intros t. now apply IH.
  - unfold at_boundary. rewrite Hw. f_equal. now apply IH.
  - f_equal. now apply IH.
Qed.

Lemma search_from_prev r prev prev' s :
  word_at prev = word_at prev' -> search_from r prev s = search_from r prev' s.
Proof.
  intros Hw. destruct s; simpl; now rewrite (match_here_prev r prev prev').
Qed.

Lemma prev_after_cons prev a pre :
  prev_after prev (a :: pre) = prev_after (Some a) pre.
Proof.
  unfold prev_after. destruct pre as [|b pre]; [reflexivity|].
  change (last (a :: b :: pre)) with (last (b :: pre)).
  destruct (last (b :: pre)) eqn:E; [reflexivity|].
  apply last_None in E. discriminate.
Qed.

(** A match found after a prefix is found by the search over the whole. *)
Lemma search_from_skip r pre : forall prev s,
  search_from r (prev_after prev pre) s = true ->
  search_from r prev (pre ++ s) = true.
Proof.
  induction pre as [|a pre IH]; intros prev s H; [exact H|].
  rewrite prev_after_cons in H. simpl.
  rewrite (IH _ _ H). apply orb_true_r.
Qed.

Lemma repeat_set_none cs (k : option ascii -> list ascii -> bool) prev s :
  k prev s = true -> repeat_set cs k prev s = true.
Proof. intros H. destruct s; simpl; rewrite H, ?orb_true_r; reflexivity. Qed.

(** *** Text added after a match *)

Section Extend.
Variable post : list ascii.
Hypothesis post_nonword : word_at (head post) = false.

Lemma at_boundary_extend prev s : at_boundary prev (s ++ post) = at_boundary prev s.
Proof.
  unfold at_boundary. destruct s; simpl; [now rewrite post_nonword | reflexivity].
Qed.

Lemma repeat_set_extend cs (k : option ascii -> list ascii -> bool) :
  (forall prev s, k prev s = true -> k prev (s ++ post) = true) ->
  forall s prev, repeat_set cs k prev s = true ->
                 repeat_set cs k prev (s ++ post) = true.
Proof.
  intros Hk. induction s as [|c s IH]; intros prev H; simpl in H.
  - apply Hk in H. now apply repeat_set_none.
  - simpl. apply orb_true_iff in H as [H|H].
    + apply andb_true_iff in H as [Hc H].
      rewrite Hc, (IH _ H). reflexivity.
    + apply Hk in H. simpl in H. rewrite H. apply orb_true_r.
Qed.

Lemma match_here_extend r : unanchored r = true ->
  forall prev s, match_here r prev s = true ->
                 match_here r prev (s ++ post) = true.
Proof.
  unfold unanchored.
  induction r as [|[cs [| |]| |] r IH]; simpl; intros Hr prev s H;
    try discriminate; try reflexivity.
  - destruct s as [|c s]; [discriminate|]. simpl.
    apply andb_true_iff in H as [Hc H]. rewrite Hc. now apply IH.
  - apply repeat_set_extend; [|exact H]. intros; now apply IH.
  - destruct s as [|c s]; [discriminate|]. simpl.
    apply andb_true_iff in H as [Hc H]. rewrite Hc.
    apply repeat_set_extend; [|exact H]. intros; now apply IH.
  - apply andb_true_iff in H as [Hb H].
    rewrite at_boundary_extend, Hb. now apply IH.
Qed.

Lemma search_from_extend r : unanchored r = true ->
  forall s prev, search_from r prev s = true ->
                 search_from r prev (s ++ post) = true.
Proof.
  intros Hr. induction s as [|c s IH]; intros prev H; simpl in H.
  - rewrite orb_false_r in H. apply (match_here_extend r Hr) in H.
    simpl in *. destruct post; simpl; now rewrite H.
  - simpl. apply orb_true_iff in H as [H|H].
    + apply (match_here_extend r Hr) in H. simpl in H. now rewrite H.
    + rewrite (IH _ H). apply orb_true_r.
Qed.
End Extend.

(** *** What a match needs *)

Lemma has_char_cons cs c s : has_char cs s -> has_char cs (c :: s).
Proof. intros (d & Hd & Hs). exists d. split; [now right | exact Hs]. Qed.

Lemma repeat_set_needs cs0 cs (k : option ascii -> list ascii -> bool) :
  (forall prev s, k prev s = true -> has_char cs0 s) ->
  forall s prev, repeat_set cs k prev s = true -> has_char cs0 s.
Proof.
  intros Hk. induction s as [|c s IH]; intros prev H; simpl in H.
  - now apply Hk in H.
  - apply orb_true_iff in H as [H|H]; [|now apply Hk in H].
    apply andb_true_iff in H as [_ H]. apply has_char_cons. now apply IH in H.
Qed.

Lemma match_here_needs cs0 r : In cs0 (mandatory r) ->
  forall prev s, match_here r prev s = true -> has_char cs0 s.
Proof.
  unfold mandatory.
  induction r as [|[cs [| |]| |] r IH]; simpl; intros Hin prev s H.
  - destruct Hin.
  - destruct s as [|c s]; [discriminate|].
    apply andb_true_iff in H as [Hc H]. destruct Hin as [<-|Hin].
    + exists c. split; [now left | exact Hc].
    + apply has_char_cons. now apply IH in H.
  - apply (repeat_set_needs cs0 cs (match_here r)) in H; [exact H|].
    intros; now apply IH with prev0.
  - destruct s as [|c s]; [discriminate|].
    apply andb_true_iff in H as [Hc H]. destruct Hin as [<-|Hin].
    + exists c. split; [now left | exact Hc].
    + apply has_char_cons.
      apply (repeat_set_needs cs0 cs (match_here r)) in H; [exact H|].
      intros; now apply IH with prev0.
  - apply andb_true_iff in H as [_ H]. now apply IH in H.
  - apply andb_true_iff in H as [_ H]. now apply IH in H.
Qed.

Lemma search_from_needs cs0 r : In cs0 (mandatory r) ->
  forall s prev, search_from r prev s = true -> has_char cs0 s.
Proof.
  intros Hin. induction s as [|c s IH]; intros prev H; simpl in H.
  - rewrite orb_false_r in H. now apply match_here_needs with (cs0 := cs0) in H.
  - apply orb_true_iff in H as [H|H].
    + now apply match_here_needs with (cs0 := cs0) in H.
    + apply has_char_cons. now apply IH in H.
Qed.

Lemma search_from_lacking cs r s prev :
  In cs (mandatory r) ->
  (forall c, In c s -> in_set cs c = false) ->
  search_from r prev s = false.
Proof.
  intros Hin Hs. destruct (search_from r prev s) eqn:E; [|reflexivity].
  apply (search_from_needs cs r Hin) in E as (c & Hc & Hset).
  rewrite (Hs c Hc) in Hset. discriminate.
Qed.

(** *** A text in two parts *)

Lemma search_from_app r pre tail : forall prev,
  search_from r prev (pre ++ tail)
  = search_in r prev pre tail || search_from r (prev_after prev pre) tail.
Proof.
  induction pre as [|c pre IH]; intros prev; [reflexivity|].
  rewrite prev_after_cons. cbn [search_in]. rewrite <- orb_assoc, <- IH.
  reflexivity.
Qed.

(** [[fd]*f] cannot get past a letter other than [f] and [d] that comes
    before any [f]. *)
Lemma cluster_without_f (ds rest : list ascii) (x : ascii) :
  Forall (fun c => c = "d"%char) ds -> x <> "f"%char -> x <> "d"%char ->
  forall prev,
    repeat_set (OneOf ["f"; "d"]%char) (match_here [Atom (Lit "f") Once])
      prev (ds ++ x :: rest) = false.
Proof.
  intros Hds Hf Hd. induction Hds as [|c ds -> _ IH]; intros prev.
  - cbn [app repeat_set match_here in_set existsb].
    apply Ascii.eqb_neq in Hf, Hd. now rewrite Hf, Hd.
  - cbn [app repeat_set]. rewrite IH. reflexivity.
Qed.

(** *** The matcher against what a match is *)

Lemma repeat_set_run cs (k : option ascii -> list ascii -> bool) u s :
  Forall (fun c => in_set cs c = true) u ->
  forall prev, k (prev_after prev u) s = true ->
               repeat_set cs k prev (u ++ s) = true.
Proof.
  induction 1 as [|c u Hc _ IH]; intros prev H.
  - now apply repeat_set_none.
  - rewrite prev_after_cons in H. cbn [app repeat_set].
    now rewrite Hc, (IH _ H).
Qed.

Lemma repeat_set_inv cs (k : option ascii -> list ascii -> bool) :
  forall s prev, repeat_set cs k prev s = true ->
    exists u s', s = u ++ s' /\ Forall (fun c => in_set cs c = true) u
                 /\ k (prev_after prev u) s' = true.
Proof.
  induction s as [|c s IH]; intros prev H; simpl in H.
  - exists [], []. auto.
  - apply orb_true_iff in H as [H|H].
    + apply andb_true_iff in H as [Hc H].
      apply IH in H as (u & s' & -> & Hu & Hk).
      exists (c :: u), s'. rewrite prev_after_cons. auto.
    + exists [], (c :: s). auto.
Qed.

Lemma match_here_sound r : forall prev s,
  match_here r prev s = true -> exists w rest, s = w ++ rest /\ sem r prev w rest.
Proof.
  induction r as [|[cs [| |]| |] r IH]; simpl; intros prev s H.
  - exists [], s. auto.
  - destruct s as [|c s]; [discriminate|].
    apply andb_true_iff in H as [Hc H].
    apply IH in H as (w & rest & -> & Hw).
    exists (c :: w), rest. split; [reflexivity|]. exists c, w. auto.
  - apply repeat_set_inv in H as (u & s' & -> & Hu & H).
    apply IH in H as (w & rest & -> & Hw).
    exists (u ++ w), rest. rewrite app_assoc. split; [reflexivity|].
    exists u, w. auto.
  - destruct s as [|c s]; [discriminate|].
    apply andb_true_iff in H as [Hc H].
    apply repeat_set_inv in H as (u & s' & -> & Hu & H).
    apply IH in H as (w & rest & -> & Hw).
    exists (c :: u ++ w), rest. rewrite app_assoc. split; [reflexivity|].
    exists c, u, w. auto.
  - apply andb_true_iff in H as [Hb H].
    apply IH in H as (w & rest & -> & Hw). exists w, rest. auto.
  - apply andb_true_iff in H as [He H].
    apply IH in H as (w & rest & -> & Hw). exists w, rest. auto.
Qed.

Lemma match_here_complete r : forall prev w rest,
  sem r prev w rest -> match_here r prev (w ++ rest) = true.
Proof.
  induction r as [|[cs [| |]| |] r IH]; simpl; intros prev w rest H.
  - reflexivity.
  - destruct H as (c & w' & -> & Hc & H). simpl. rewrite Hc. now apply IH.
  - destruct H as (u & w' & -> & Hu & H). rewrite <- app_assoc.
    apply repeat_set_run; [exact Hu | now apply IH].
  - destruct H as (c & u & w' & -> & Hc & Hu & H). simpl. rewrite Hc.
    rewrite <- app_assoc. apply repeat_set_run; [exact Hu | now apply IH].
  - destruct H as [Hb H]. rewrite Hb. now apply IH.
  - destruct H as [He H]. rewrite He. now apply IH.
Qed.

Lemma search_from_here r prev s :
  match_here r prev s = true -> search_from r prev s = true.
Proof. intros H. destruct s; simpl; now rewrite H. Qed.

(** The search succeeds exactly when the text splits into what comes
    before a match, the match, and what comes after it. *)
Lemma search_from_sem r : forall s prev,
  search_from r prev s = true
  <-> exists pre w rest, s = pre ++ w ++ rest /\ sem r (prev_after prev pre) w rest.
Proof.
  intros s prev. split.
  - revert prev. induction s as [|c s IH]; intros prev H; simpl in H.
    + rewrite orb_false_r in H.
      apply match_here_sound in H as (w & rest & Hs & Hw). exists [], w, rest. auto.
    + apply orb_true_iff in H as [H|H].
      * apply match_here_sound in H as (w & rest & Hs & Hw). exists [], w, rest. auto.
      * apply IH in H as (pre & w & rest & -> & Hw).
        exists (c :: pre), w, rest. rewrite prev_after_cons. auto.
  - intros (pre & w & rest & -> & Hw).
    apply search_from_skip, search_from_here. now apply match_here_complete.
Qed.

Lemma word_at_prev_after pre :
  word_at (prev_after None pre) = word_at (last pre).
Proof. unfold prev_after. now destruct (last pre). Qed.

Lemma sem_lits s r : forall prev w rest,
  sem (lits s ++ r) prev w rest
  <-> exists w', w = list_ascii_of_string s ++ w'
                 /\ sem r (prev_after prev (list_ascii_of_string s)) w' rest.
Proof.
  unfold lits. induction s as [|c s IH]; intros prev w rest; simpl.
  - split; [intros H; exists w; auto | intros (w' & -> & H); exact H].
  - split.
    + intros (c' & w1 & -> & Hc & H). apply Ascii.eqb_eq in Hc as ->.
      apply IH in H as (w' & -> & H). exists w'. rewrite prev_after_cons. auto.
    + intros (w' & -> & H). exists c, (list_ascii_of_string s ++ w').
      rewrite prev_after_cons in H.
      repeat split; [apply Ascii.eqb_refl | apply IH; eauto].
Qed.

(** What every pattern of the form [\bgit\s+<sub>...] asks of a match. *)
Lemma sem_git_sub (sub : string) (r r' : regex) prev w rest :
  r = WordBoundary :: lits "git" ++ Atom Space Plus :: lits sub ++ r' ->
  sem r prev w rest ->
  word_at prev = false
  /\ exists ws w',
       w = list_ascii_of_string "git" ++ ws ++ list_ascii_of_string sub ++ w'
       /\ ws <> [] /\ Forall (fun c => is_space c = true) ws.
Proof.
  intros -> [Hb H]. apply sem_lits in H as (w1 & -> & H).
  destruct H as (c & u & w2 & -> & Hc & Hu & H).
  apply sem_lits in H as (w' & -> & _).
  split.
  - unfold at_boundary in Hb. simpl in Hb. now destruct (word_at prev).
  - exists (c :: u), w'. repeat split; [discriminate | now constructor].
Qed.

Lemma sem_git_sub_iff (sub : string) (r' : regex) prev w rest :
  sem (WordBoundary :: lits "git" ++ Atom Space Plus :: lits sub ++ r') prev w rest
  <-> word_at prev = false
      /\ exists ws w',
           w = list_ascii_of_string "git" ++ ws ++ list_ascii_of_string sub ++ w'
           /\ ws <> [] /\ Forall (fun c => is_space c = true) ws
           /\ sem r' (prev_after (prev_after (Some "t"%char) ws)
                        (list_ascii_of_string sub)) w' rest.
Proof.
  split.
  - intros [Hb H]. apply sem_lits in H as (w1 & -> & H).
    destruct H as (c & u & w2 & -> & Hc & Hu & H).
    apply sem_lits in H as (w' & -> & H).
    split.
    + unfold at_boundary in Hb. simpl in Hb. now destruct (word_at prev).
    + exists (c :: u), w'. rewrite prev_after_cons.
      repeat split; [discriminate | now constructor | exact H].
  - intros (Hp & ws & w' & -> & Hne & Hws & H).
    destruct ws as [|c u]; [now destruct Hne|].
    rewrite prev_after_cons in H. inversion Hws as [|? ? Hc Hu]; subst.
    split.
    + unfold at_boundary. simpl. now rewrite Hp.
    + apply sem_lits. eexists. split; [reflexivity|].
      exists c, u, (list_ascii_of_string sub ++ w').
      repeat split; try assumption.
      apply sem_lits. eexists. split; [reflexivity | exact H].
Qed.

(** *** The text a match covers *)

Lemma repeat_set_shape cs (k : option ascii -> list ascii -> bool) P :
  (forall prev s, k prev s = true -> covers P s) ->
  forall s prev, repeat_set cs k prev s = true ->
    covers (fun w => exists u w', w = u ++ w'
                       /\ Forall (fun c => in_set cs c = true) u /\ P w') s.
Proof.
  intros Hk. induction s as [|c s IH]; intros prev H; simpl in H.
  - apply Hk in H as (w & rest & -> & Hw).
    exists w, rest. split; [reflexivity|]. exists [], w. auto.
  - apply orb_true_iff in H as [H|H].
    + apply andb_true_iff in H as [Hc H].
      apply IH in H as (w & rest & -> & u & w' & -> & Hu & Hw).
      exists (c :: u ++ w'), rest. split; [reflexivity|].
      exists (c :: u), w'. auto.
    + apply Hk in H as (w & rest & Hs & Hw).
      exists w, rest. split; [exact Hs|]. exists [], w. auto.
Qed.

Lemma match_here_shape r : forall prev s,
  match_here r prev s = true -> covers (shape r) s.
Proof.
  induction r as [|[cs [| |]| |] r IH]; simpl; intros prev s H.
  - exists [], s. auto.
  - destruct s as [|c s]; [discriminate|].
    apply andb_true_iff in H as [Hc H].
    apply IH in H as (w & rest & -> & Hw).
    exists (c :: w), rest. split; [reflexivity|]. exists c, w. auto.
  - apply (repeat_set_shape cs _ (shape r)) in H; [|exact IH].
    destruct H as (w & rest & -> & u & w' & -> & Hu & Hw).
    exists (u ++ w'), rest. split; [reflexivity|]. exists u, w'. auto.
  - destruct s as [|c s]; [discriminate|].
    apply andb_true_iff in H as [Hc H].
    apply (repeat_set_shape cs _ (shape r)) in H; [|exact IH].
    destruct H as (w & rest & -> & u & w' & -> & Hu & Hw).
    exists (c :: u ++ w'), rest. split; [reflexivity|]. exists c, u, w'. auto.
  - apply andb_true_iff in H as [_ H]. now apply IH in H.
  - apply andb_true_iff in H as [_ H]. now apply IH in H.
Qed.

Lemma search_from_shape r : forall s prev,
  search_from r prev s = true ->
  exists pre w rest, s = pre ++ w ++ rest /\ shape r w.
Proof.
  induction s as [|c s IH]; intros prev H; simpl in H.
  - rewrite orb_false_r in H.
    apply match_here_shape in H as (w & rest & Hs & Hw). exists [], w, rest. auto.
  - apply orb_true_iff in H as [H|H].
    + apply match_here_shape in H as (w & rest & Hs & Hw). exists [], w, rest. auto.
    + apply IH in H as (pre & w & rest & -> & Hw).
      exists (c :: pre), w, rest. auto.
Qed.

End ReFacts.

(** ** Facts about the table walk and about [main] *)

Module HookFacts.
Import ReFacts.

Lemma re_search_str pattern s b out :
  Re.search pattern s = Some b -> re_search pattern (VStr s) out = (inr b, out).
Proof. intros H. unfold re_search. now rewrite H. Qed.

Lemma check_in_first before : forall p r a after s out,
  Forall (misses s) before ->
  Re.search p s = Some true ->
  check_in (before ++ (p, r, a) :: after) (VStr s) out
  = (inr (Some (true, r, a)), out).
Proof.
  induction before as [|[[p0 r0] a0] before IH]; intros p r a after s out Hb Hp;
    simpl; unfold bind.
  - now rewrite (re_search_str _ _ _ _ Hp).
  - inversion Hb as [|? ? H0 Hb']; subst.
    rewrite (re_search_str _ _ _ _ H0). now apply IH.
Qed.

Lemma check_in_none table : forall s out,
  Forall (misses s) table -> check_in table (VStr s) out = (inr None, out).
Proof.
  induction table as [|[[p0 r0] a0] table IH]; intros s out Ht; simpl;
    [reflexivity|]. unfold bind.
  inversion Ht as [|? ? H0 Ht']; subst.
  rewrite (re_search_str _ _ _ _ H0). now apply IH.
Qed.

Lemma search_compiles pattern s :
  is_Some (Re.compile pattern) ->
  Re.search pattern s = Some true \/ Re.search pattern s = Some false.
Proof.
  intros [r Hr]. unfold Re.search. rewrite Hr. simpl.
  destruct (Re.search_from _ _ _); auto.
Qed.

(** Either some entry is the first one found, or every entry misses. *)
Lemma table_cases table s :
  Forall compiles table ->
  (exists before p r a after,
      table = before ++ (p, r, a) :: after
      /\ Forall (misses s) before /\ Re.search p s = Some true)
  \/ Forall (misses s) table.
Proof.
  induction 1 as [|[[p r] a] table Hc _ IH]; [right; constructor|].
  destruct (search_compiles p s Hc) as [Hp|Hp].
  - left. exists [], p, r, a, table. auto.
  - destruct IH as [(before & p' & r' & a' & after & -> & Hb & Hp')|Hall].
    + left. exists ((p, r, a) :: before), p', r', a', after.
      repeat split; auto.
    + right. constructor; auto.
Qed.

Lemma table_compiles : Forall compiles DANGEROUS_PATTERNS.
Proof. repeat constructor; vm_compute; eauto. Qed.

Lemma bind_inr {A B} (m : M A) (f : A -> M B) out a out' :
  m out = (inr a, out') -> bind m f out = f a out'.
Proof. intros H. unfold bind. now rewrite H. Qed.

Lemma bind_inl {A B} (m : M A) (f : A -> M B) out e out' :
  m out = (inl e, out') -> bind m f out = (inl e, out').
Proof. intros H. unfold bind. now rewrite H. Qed.

Lemma flag_set (environ : gmap string string) :
  environ !! "ZEROSHOT_WORKTREE" = Some "1" ->
  negb (bool_decide (environ !! "ZEROSHOT_WORKTREE" = Some "1")) = false.
Proof. intros H. now rewrite bool_decide_eq_true_2. Qed.

(** [main] once the flag is set and the request names the shell tool. *)
Lemma main_checks (environ : gmap string string) (m ti : gmap string value) res :
  environ !! "ZEROSHOT_WORKTREE" = Some "1" ->
  m !! "tool_name" = Some (VStr "Bash") ->
  from_option id (VDict ∅) (m !! "tool_input") = VDict ti ->
  check_command (from_option id (VStr "") (ti !! "command")) [] = (inr res, []) ->
  run (main environ (Parsed (VDict m)))
  = Process match res with
            | Some (_, reason, alternative) => [deny_output reason alternative]
            | None => []
            end 0 None.
Proof.
  intros Henv Hname Hti Hres. unfold run, main.
  rewrite (flag_set _ Henv).
  rewrite (bind_inr _ _ [] (VDict m) []) by reflexivity.
  rewrite (bind_inr _ _ [] (VStr "Bash") [])
    by (unfold get; now rewrite Hname).
  change (ne_str (VStr "Bash") "Bash") with false. cbv iota.
  rewrite (bind_inr _ _ [] (VDict ti) [])
    by (unfold get; now rewrite Hti).
  rewrite (bind_inr _ _ [] _ []) by reflexivity.
  rewrite (bind_inr _ _ [] _ [] Hres).
  destruct res as [[[b r] a]|]; reflexivity.
Qed.

(** ... and when the request names another tool, or none. *)
Lemma main_other_tool (environ : gmap string string) (m : gmap string value) :
  environ !! "ZEROSHOT_WORKTREE" = Some "1" ->
  ne_str (from_option id (VStr "") (m !! "tool_name")) "Bash" = true ->
  run (main environ (Parsed (VDict m))) = Process [] 0 None.
Proof.
  intros Henv Hname. unfold run, main.
  rewrite (flag_set _ Henv).
  rewrite (bind_inr _ _ [] (VDict m) []) by reflexivity.
  rewrite (bind_inr _ _ [] _ []) by reflexivity.
  now rewrite Hname.
Qed.

Lemma main_bash_request (command : string) res :
  check_command (VStr command) [] = (inr res, []) ->
  run (main worktree_env (Parsed (bash_request (VStr command))))
  = Process match res with
            | Some (_, reason, alternative) => [deny_output reason alternative]
            | None => []
            end 0 None.
Proof.
  intros Hres.
  apply (main_checks _ _ {[ "command" := VStr command ]}); try reflexivity.
  exact Hres.
Qed.

Lemma found_not_missed (table : list rule) s e :
  In e table -> Re.search (pattern_of e) s = Some true ->
  Forall (misses s) table -> False.
Proof.
  intros Hin He Hall. rewrite Forall_forall in Hall.
  apply list_elem_of_In, Hall in Hin. unfold misses in Hin. congruence.
Qed.

(** A command some entry is found in is denied, with the reason and the
    alternative of the first such entry. *)
Lemma found_is_denied s e out :
  In e DANGEROUS_PATTERNS -> Re.search (pattern_of e) s = Some true ->
  exists p reason alternative,
    first_found s (p, reason, alternative)
    /\ check_command (VStr s) out = (inr (Some (true, reason, alternative)), out).
Proof.
  intros Hin He.
  destruct (table_cases DANGEROUS_PATTERNS s table_compiles)
    as [(before & p & r & a & after & Heq & Hb & Hp)|Hall].
  - exists p, r, a. split; [exists before, after; auto|].
    unfold check_command. rewrite Heq. now apply check_in_first.
  - destruct (found_not_missed _ _ _ Hin He Hall).
Qed.

(** *** Searching a command that is part of a longer one *)

Lemma search_from_after r pre s :
  Re.word_at (last pre) = false ->
  Re.search_from r None s = true -> Re.search_from r None (pre ++ s) = true.
Proof.
  intros Hpre H. apply search_from_skip.
  rewrite (search_from_prev r _ None); [exact H|].
  unfold Re.prev_after. destruct (last pre); [exact Hpre | reflexivity].
Qed.

Lemma search_embedded pattern r (pre c post : string) :
  Re.compile pattern = Some r ->
  Re.unanchored r = true \/ post = "" ->
  ends_nonword pre -> starts_nonword post ->
  Re.search pattern c = Some true ->
  Re.search pattern (pre +:+ c +:+ post) = Some true.
Proof.
  unfold Re.search, ends_nonword, starts_nonword.
  intros -> Hr Hpre Hpost H. simpl in *. injection H as H. f_equal.
  rewrite !chars_app. apply search_from_after; [exact Hpre|].
  destruct Hr as [Hr| ->].
  - now apply search_from_extend.
  - simpl. now rewrite app_nil_r.
Qed.

(** A match that starts right after [pre], whatever follows. *)
Lemma search_at pattern r (pre c : string) :
  Re.compile pattern = Some r ->
  ends_nonword pre ->
  Re.match_here r None (chars c) = true ->
  Re.search pattern (pre +:+ c) = Some true.
Proof.
  unfold Re.search, ends_nonword. intros -> Hpre H. simpl. f_equal.
  rewrite chars_app. apply search_from_after; [exact Hpre|].
  destruct (chars c); simpl; now rewrite H.
Qed.

(** A pattern with a character it cannot do without is not found in a
    text that lacks it. *)
Lemma search_lacking pattern r cs (s : string) :
  Re.compile pattern = Some r ->
  In cs (Re.mandatory r) ->
  (forall c, In c (chars s) -> Re.in_set cs c = false) ->
  Re.search pattern s = Some false.
Proof.
  unfold Re.search. intros -> Hin Hs. simpl. f_equal.
  destruct (Re.search_from r None (chars s)) eqn:E; [|reflexivity].
  apply (search_from_needs cs r Hin) in E as (c & Hc & Hset).
  rewrite (Hs c Hc) in Hset. discriminate.
Qed.

(** A text in two parts: no match starts in the first part, and the second
    lacks a character the pattern cannot do without. *)
Lemma search_parts pattern r cs (s : string) (pre tail : list ascii) :
  Re.compile pattern = Some r ->
  chars s = pre ++ tail ->
  Re.search_in r None pre tail = false ->
  In cs (Re.mandatory r) ->
  (forall c, In c tail -> Re.in_set cs c = false) ->
  Re.search pattern s = Some false.
Proof.
  unfold Re.search. intros -> -> Hpre Hin Htail. simpl. f_equal.
  rewrite search_from_app, Hpre. now apply search_from_lacking with cs.
Qed.

(** The only texts the clean entry is found in. *)
Lemma clean_rule_shape (command : string) :
  Re.search "\bgit\s+clean\s+-[fd]*f" command = Some true ->
  exists pre ws1 ws2 fd post,
    chars command
    = pre ++ chars "git" ++ ws1 ++ chars "clean" ++ ws2
          ++ chars "-" ++ fd ++ chars "f" ++ post
    /\ ws1 <> [] /\ ws2 <> []
    /\ Forall (fun c => is_space c = true) ws1
    /\ Forall (fun c => is_space c = true) ws2
    /\ Forall (fun c => c = "f"%char \/ c = "d"%char) fd.
Proof.
  unfold Re.search.
  set (r := Re.compile _). vm_compute in r. subst r. simpl.
  intros H. injection H as H.
  apply search_from_shape in H as (pre & w & post & Hcmd & Hw).
  simpl in Hw.
  repeat match goal with
         | H : exists _, _ |- _ => destruct H as [? H]
         | H : _ /\ _ |- _ => destruct H as [? H]
         end.
  repeat match goal with
         | H : Ascii.eqb _ _ = true |- _ => apply Ascii.eqb_eq in H
         end.
  subst.
  match goal with
  | Hcmd : chars command = pre ++ ("g" :: "i" :: "t" :: ?c1 :: ?u1 ++ _ :: _ :: _ :: _ :: _
                                   :: ?c2 :: ?u2 ++ _ :: ?fd ++ _)%char ++ post |- _ =>
      exists pre, (c1 :: u1), (c2 :: u2), fd, post
  end.
  split.
  - rewrite Hcmd. simpl. rewrite <- !app_assoc. simpl.
    repeat (rewrite <- ?app_assoc; simpl; f_equal).
  - repeat split; try discriminate; try (constructor; assumption).
    match goal with
    | H : Forall _ ?fd |- Forall _ ?fd =>
        eapply Forall_impl; [exact H|]
    end.
    intros c Hc. simpl in Hc.
    destruct (Ascii.eqb_spec c "f"); [now left|].
    destruct (Ascii.eqb_spec c "d"); [now right | discriminate].
Qed.

(** *** What [check_command] and [main] return *)

Lemma check_command_returns (s : string) (out : list value) :
  exists res,
    check_command (VStr s) out = (inr res, out)
    /\ (res = None /\ Forall (misses s) DANGEROUS_PATTERNS
        \/ exists p r a, first_found s (p, r, a) /\ res = Some (true, r, a)).
Proof.
  destruct (table_cases DANGEROUS_PATTERNS s table_compiles)
    as [(before & p & r & a & after & Heq & Hb & Hp)|Hall].
  - exists (Some (true, r, a)). split.
    + unfold check_command. rewrite Heq. now apply check_in_first.
    + right. exists p, r, a. split; [exists before, after; auto | reflexivity].
  - exists None. split; [now apply check_in_none | now left].
Qed.

Lemma first_found_in s e : first_found s e -> In e DANGEROUS_PATTERNS.
Proof.
  intros (before & after & -> & _). apply in_or_app. right. now left.
Qed.

Lemma check_command_type_error (v : value) (out : list value) :
  (forall s, v <> VStr s) -> check_command v out = (inl TypeError, out).
Proof.
  intros Hv. destruct v; try reflexivity. now destruct (Hv s).
Qed.

(** [main] up to the tool filter, flag set. *)
Lemma main_tool_input (environ : gmap string string) (m : gmap string value) :
  environ !! "ZEROSHOT_WORKTREE" = Some "1" ->
  m !! "tool_name" = Some (VStr "Bash") ->
  run (main environ (Parsed (VDict m)))
  = run (bind (get (from_option id (VDict ∅) (m !! "tool_input")) "command" (VStr ""))
           (fun command =>
              bind (check_command command)
                (fun result =>
                   match result with
                   | Some (_, reason, alternative) =>
                       bind (print_json (deny_output reason alternative))
                         (fun _ => sys_exit 0)
                   | None => sys_exit 0
                   end))).
Proof.
  intros Henv Hname. unfold run, main.
  rewrite (flag_set _ Henv).
  rewrite (bind_inr _ _ [] (VDict m) []) by reflexivity.
  rewrite (bind_inr _ _ [] (VStr "Bash") [])
    by (unfold get; now rewrite Hname).
  change (ne_str (VStr "Bash") "Bash") with false. cbv iota.
  rewrite (bind_inr _ _ [] (from_option id (VDict ∅) (m !! "tool_input")) [])
    by reflexivity.
  reflexivity.
Qed.

Lemma word_is_not_space (c : ascii) : is_word c = true -> is_space c = false.
Proof.
  destruct c as [[] [] [] [] [] [] [] []]; vm_compute; auto.
Qed.

Lemma inactive_flag (environ : gmap string string) (stdin : payload) :
  environ !! "ZEROSHOT_WORKTREE" <> Some "1" ->
  run (main environ stdin) = Process [] 0 None.
Proof. intros Hflag. unfold run, main. now rewrite bool_decide_eq_false_2. Qed.

Lemma other_tool (environ : gmap string string) (m : gmap string value) :
  m !! "tool_name" <> Some (VStr "Bash") ->
  run (main environ (Parsed (VDict m))) = Process [] 0 None.
Proof.
  intros Hname.
  destruct (decide (environ !! "ZEROSHOT_WORKTREE" = Some "1")) as [Henv|Henv];
    [|now apply inactive_flag].
  apply (main_other_tool _ _ Henv).
  destruct (m !! "tool_name") as [[]|] eqn:E; try reflexivity.
  simpl. destruct (String.eqb_spec s "Bash"); [now subst | reflexivity].
Qed.

Lemma tool_name_cases (m : gmap string value) :
  m !! "tool_name" = Some (VStr "Bash") \/ m !! "tool_name" <> Some (VStr "Bash").
Proof.
  destruct (m !! "tool_name") as [[]|]; try (right; discriminate).
  destruct (String.eqb_spec s "Bash") as [->|Hne]; [now left|].
  right. intros [= ->]. now apply Hne.
Qed.

(** *** Searching, by what a match is *)

Lemma search_sem pattern r (s : string) :
  Re.compile pattern = Some r ->
  Re.search pattern s = Some true
  <-> exists pre w rest,
        chars s = pre ++ w ++ rest /\ Re.sem r (Re.prev_after None pre) w rest.
Proof.
  unfold Re.search. intros ->. simpl. rewrite <- search_from_sem.
  split; [now intros [= ->] | now intros ->].
Qed.

(** The subcommands the table knows. *)
Lemma found_has_git_sub (e : rule) (command : string) :
  In e DANGEROUS_PATTERNS ->
  Re.search (pattern_of e) command = Some true ->
  exists pre ws sub post,
    chars command = pre ++ chars "git" ++ ws ++ chars sub ++ post
    /\ Re.word_at (last pre) = false
    /\ ws <> [] /\ Forall (fun c => is_space c = true) ws
    /\ In sub ["stash"; "checkout"; "reset"; "push"; "clean"; "branch";
               "rebase"; "add"].
Proof.
  intros Hin H.
  assert (Hgit : exists r r' sub,
             Re.compile (pattern_of e) = Some r
             /\ r = Re.WordBoundary :: Re.lits "git"
                      ++ Re.Atom Re.Space Re.Plus :: Re.lits sub ++ r'
             /\ In sub ["stash"; "checkout"; "reset"; "push"; "clean"; "branch";
                        "rebase"; "add"]).
  { simpl in Hin.
    repeat (destruct Hin as [<-|Hin]); try destruct Hin;
      eexists _, _;
      first [ exists "stash"; split; [reflexivity|]; split; [reflexivity|]
            | exists "checkout"; split; [reflexivity|]; split; [reflexivity|]
            | exists "reset"; split; [reflexivity|]; split; [reflexivity|]
            | exists "push"; split; [reflexivity|]; split; [reflexivity|]
            | exists "clean"; split; [reflexivity|]; split; [reflexivity|]
            | exists "branch"; split; [reflexivity|]; split; [reflexivity|]
            | exists "rebase"; split; [reflexivity|]; split; [reflexivity|]
            | exists "add"; split; [reflexivity|]; split; [reflexivity|] ];
      simpl; tauto. }
  destruct Hgit as (r & r' & sub & Hr & Hshape & Hsub).
  destruct (proj1 (search_sem _ _ _ Hr) H) as (pre & w & rest & Hcmd & Hsem).
  destruct (sem_git_sub sub r r' _ _ _ Hshape Hsem)
    as (Hpre & ws & w' & -> & Hne & Hws).
  exists pre, ws, sub, (w' ++ rest).
  rewrite word_at_prev_after in Hpre.
  repeat split; auto.
  rewrite Hcmd, <- !app_assoc. reflexivity.
Qed.

(** The stash entry, spelled out. *)
Lemma stash_found_iff (command : string) :
  Re.search "\bgit\s+stash\b" command = Some true
  <-> exists pre ws post,
        chars command = pre ++ chars "git" ++ ws ++ chars "stash" ++ post
        /\ Re.word_at (last pre) = false
        /\ ws <> [] /\ Forall (fun c => is_space c = true) ws
        /\ Re.word_at (head post) = false.
Proof.
  rewrite (search_sem "\bgit\s+stash\b"
             (Re.WordBoundary :: Re.lits "git"
                ++ Re.Atom Re.Space Re.Plus :: Re.lits "stash"
                ++ [Re.WordBoundary]) command eq_refl).
  split.
  - intros (pre & w & rest & Hcmd & Hsem).
    apply sem_git_sub_iff in Hsem as (Hpre & ws & w' & -> & Hne & Hws & Hb & ->).
    exists pre, ws, rest. rewrite word_at_prev_after in Hpre.
    repeat split; auto.
    + rewrite Hcmd, <- !app_assoc. reflexivity.
    + unfold Re.at_boundary in Hb. simpl in Hb.
      now destruct (Re.word_at (head rest)).
  - intros (pre & ws & post & Hcmd & Hpre & Hne & Hws & Hpost).
    exists pre, (chars "git" ++ ws ++ chars "stash" ++ []), post. split.
    + rewrite Hcmd, <- !app_assoc. reflexivity.
    + apply sem_git_sub_iff. rewrite word_at_prev_after. split; [exact Hpre|].
      exists ws, []. repeat split; auto.
      unfold Re.at_boundary. simpl. now rewrite Hpost.
Qed.

(** *** Substrings *)

Lemma prefix_append (x b : string) : String.prefix x (x +:+ b) = true.
Proof.
  induction x as [|c x IH]; simpl; [now destruct b|].
  destruct (ascii_dec c c); [exact IH | congruence].
Qed.

Lemma contains_here (x b : string) : contains x (x +:+ b) = true.
Proof.
  assert (H : forall h, String.prefix x h = true -> contains x h = true)
    by (intros h Hp; destruct h; cbn [contains]; now rewrite Hp).
  apply H, prefix_append.
Qed.

Lemma contains_later (x a h : string) :
  contains x h = true -> contains x (a +:+ h) = true.
Proof.
  intros H. induction a as [|c a IH]; [exact H|].
  change (String c a +:+ h) with (String c (a +:+ h)).
  cbn [contains]. rewrite IH. apply orb_true_r.
Qed.

End HookFacts.

(** ** The properties of the hook *)

Import ReFacts HookFacts.

(** C1. Unless the environment variable ZEROSHOT_WORKTREE holds exactly
    "1" (unset or any other value), the hook exits with status 0 and
    prints nothing, for every request on standard input: parsed or not,
    whatever its tool name and command. *)
Theorem inactive_hook_is_silent (environ : gmap string string) (stdin : payload) :
  environ !! "ZEROSHOT_WORKTREE" <> Some "1" ->
  run (main environ stdin) = Process [] 0 None.
Proof.
  intros Hflag. unfold run, main.
  now rewrite bool_decide_eq_false_2.
Qed.

Lemma inactive_hook_is_silent_witness :
  run (main {[ "ZEROSHOT_WORKTREE" := "0" ]}
            (Parsed (bash_request (VStr "git reset --hard"))))
  = Process [] 0 None
  /\ run (main ∅ Malformed) = Process [] 0 None.
Proof.
  split; apply inactive_hook_is_silent.
  - rewrite lookup_singleton_eq. discriminate.
  - rewrite lookup_empty. discriminate.
Defined.

(** C7. A payload that [json.load] rejects gives no decision: nothing is
    printed, the status is 0 and no exception escapes, flag set or not. *)
Theorem malformed_input_is_let_through (environ : gmap string string) :
  run (main environ Malformed) = Process [] 0 None.
Proof.
  unfold run, main.
  destruct (negb (bool_decide (environ !! "ZEROSHOT_WORKTREE" = Some "1")));
    reflexivity.
Qed.

(** C6. With the flag set, a payload that parses but is not an object, or
    whose [tool_input] is not an object, ends the process with an uncaught
    AttributeError and status 1. *)
Theorem wrong_shape_payload_crashes :
  run (main worktree_env (Parsed (VList []))) = Process [] 1 (Some AttributeError)
  /\ run (main worktree_env
            (Parsed (VDict (<[ "tool_name" := VStr "Bash" ]>
                            {[ "tool_input" := VStr "git status" ]}))))
     = Process [] 1 (Some AttributeError).
Proof. split; reflexivity. Qed.

(** C3. With the flag "1" and tool_name "Bash", a [command] that holds a
    number or null is not taken as the empty command string: it reaches
    [re.search] as it is, which raises TypeError, and the process ends
    with status 1; the empty command string gives no decision. *)
Theorem non_string_command_not_empty :
  run (main worktree_env (Parsed (bash_request (VInt 5))))
  = Process [] 1 (Some TypeError)
  /\ run (main worktree_env (Parsed (bash_request VNone)))
     = Process [] 1 (Some TypeError)
  /\ run (main worktree_env (Parsed (bash_request (VStr ""))))
     = Process [] 0 None.
Proof. repeat split; vm_compute; reflexivity. Qed.

(** The part of C3 that holds. With the flag "1" and tool_name "Bash", a request whose
    [tool_input] (an object, or absent and so the empty object) has no
    [command] field is checked as the empty command string: no decision,
    status 0, no exception. *)
Theorem absent_command_is_empty (environ : gmap string string)
    (m ti : gmap string value) :
  environ !! "ZEROSHOT_WORKTREE" = Some "1" ->
  m !! "tool_name" = Some (VStr "Bash") ->
  from_option id (VDict ∅) (m !! "tool_input") = VDict ti ->
  ti !! "command" = None ->
  run (main environ (Parsed (VDict m)))
  = run (main worktree_env (Parsed (bash_request (VStr ""))))
  /\ run (main environ (Parsed (VDict m))) = Process [] 0 None.
Proof.
  intros Henv Hname Hti Hcmd.
  assert (He : check_command (VStr "") [] = (inr None, [])) by reflexivity.
  rewrite (main_bash_request _ _ He).
  enough (run (main environ (Parsed (VDict m))) = Process [] 0 None) by auto.
  apply (main_checks environ m ti None Henv Hname Hti).
  now rewrite Hcmd.
Qed.

Lemma absent_command_is_empty_witness :
  run (main worktree_env
         (Parsed (VDict (<[ "tool_name" := VStr "Bash" ]>
                         {[ "tool_input" := VDict ∅ ]}))))
  = Process [] 0 None
  /\ run (main worktree_env (Parsed (VDict {[ "tool_name" := VStr "Bash" ]})))
     = Process [] 0 None.
Proof.
  split.
  - apply (absent_command_is_empty worktree_env _ ∅); reflexivity.
  - apply (absent_command_is_empty worktree_env _ ∅); reflexivity.
Defined.

(** C2. For every command string the table is walked in its order and the
    first entry whose pattern is found decides: the result of
    [check_command], and with it the deny message, carries the reason and
    the alternative of that entry, every entry before it misses, and the
    entries after it play no part (the walk gives the same result whatever
    stands in their place). When no entry is found the result is [None]. *)
Theorem first_match_decides (command : string) (out : list value) :
  exists res,
    check_command (VStr command) out = (inr res, out)
    /\ run (main worktree_env (Parsed (bash_request (VStr command))))
       = Process match res with
                 | Some (_, reason, alternative) => [deny_output reason alternative]
                 | None => []
                 end 0 None
    /\ match res with
       | Some (matched, reason, alternative) =>
           matched = true
           /\ exists pattern before after,
               DANGEROUS_PATTERNS = before ++ (pattern, reason, alternative) :: after
               /\ Forall (misses command) before
               /\ Re.search pattern command = Some true
               /\ forall after' out',
                   check_in (before ++ (pattern, reason, alternative) :: after')
                            (VStr command) out'
                   = (inr (Some (true, reason, alternative)), out')
       | None => Forall (misses command) DANGEROUS_PATTERNS
       end.
Proof.
  destruct (table_cases DANGEROUS_PATTERNS command table_compiles)
    as [(before & p & r & a & after & Heq & Hb & Hp)|Hall].
  - exists (Some (true, r, a)).
    assert (Hwalk : forall after' out',
               check_in (before ++ (p, r, a) :: after') (VStr command) out'
               = (inr (Some (true, r, a)), out'))
      by (intros; now apply check_in_first).
    assert (Hc : forall out', check_command (VStr command) out'
                              = (inr (Some (true, r, a)), out'))
      by (intros; unfold check_command; rewrite Heq; apply Hwalk).
    split; [apply Hc|]. split; [apply (main_bash_request _ _ (Hc [])) |].
    split; [reflexivity|]. exists p, before, after. auto.
  - exists None.
    assert (Hc : forall out', check_command (VStr command) out' = (inr None, out'))
      by (intros; now apply check_in_none).
    split; [apply Hc|]. split; [apply (main_bash_request _ _ (Hc [])) | exact Hall].
Qed.

(** A command built to be found by the stash entry and by the reset entry
    gets the message of the stash entry, which stands first. *)
Example stash_precedes_reset :
  run (main worktree_env
         (Parsed (bash_request (VStr "git reset --hard && git stash"))))
  = Process [deny_output "git stash hides work from other agents"
               ("Use 'git add -A && git commit -m " +:+ dq +:+ "WIP: ..." +:+ dq
                +:+ "' instead")] 0 None.
Proof. vm_compute. reflexivity. Qed.

(** C8. Whenever an entry of the table is found in the command (flag "1",
    tool_name "Bash"), the hook prints exactly one object and exits with
    status 0; the object is the deny decision, and its reason text holds
    the marker, the reason and the alternative of the first entry found,
    and the closing sentence. For "git push --force origin main" the text
    contains "rewrites remote history" and "Use 'git push'". *)
Theorem matched_rule_is_denied :
  (forall (environ : gmap string string) (m ti : gmap string value)
          (command : string) (e : rule),
      environ !! "ZEROSHOT_WORKTREE" = Some "1" ->
      m !! "tool_name" = Some (VStr "Bash") ->
      from_option id (VDict ∅) (m !! "tool_input") = VDict ti ->
      ti !! "command" = Some (VStr command) ->
      In e DANGEROUS_PATTERNS ->
      Re.search (pattern_of e) command = Some true ->
      exists pattern reason alternative text,
        first_found command (pattern, reason, alternative)
        /\ run (main environ (Parsed (VDict m)))
           = Process [deny_output reason alternative] 0 None
        /\ hook_field "hookEventName" (deny_output reason alternative)
           = Some (VStr "PreToolUse")
        /\ hook_field "permissionDecision" (deny_output reason alternative)
           = Some (VStr "deny")
        /\ hook_field "permissionDecisionReason" (deny_output reason alternative)
           = Some (VStr text)
        /\ text = "[GIT-SAFE BLOCKED] " +:+ reason +:+ nl +:+ nl
                  +:+ "Safe alternative: " +:+ alternative +:+ nl +:+ nl
                  +:+ "NO BYPASS EXISTS. Use the safe alternative above."
        /\ contains "[GIT-SAFE BLOCKED]" text = true
        /\ contains reason text = true
        /\ contains alternative text = true
        /\ contains "NO BYPASS EXISTS." text = true)
  /\ (exists text,
        run (main worktree_env
               (Parsed (bash_request (VStr "git push --force origin main"))))
        = Process [deny_output "git push --force rewrites remote history"
                     "Use 'git push' (normal push) or 'git pull --rebase' to sync"]
                  0 None
        /\ hook_field "permissionDecisionReason"
             (deny_output "git push --force rewrites remote history"
                "Use 'git push' (normal push) or 'git pull --rebase' to sync")
           = Some (VStr text)
        /\ contains "rewrites remote history" text = true
        /\ contains "Use 'git push'" text = true).
Proof.
  split.
  - intros environ m ti command e Henv Hname Hti Hcmd Hin He.
    destruct (found_is_denied command e [] Hin He) as (p & r & a & Hfirst & Hc).
    exists p, r, a, (deny_reason r a).
    split; [exact Hfirst|].
    split; [apply (main_checks environ m ti (Some (true, r, a)) Henv Hname Hti);
            now rewrite Hcmd|].
    do 5 (split; [reflexivity|]). unfold deny_reason.
    split; [|split].
    + apply contains_later, contains_here.
    + do 5 apply contains_later. apply contains_here.
    + do 8 apply contains_later.
      exact (contains_here "NO BYPASS EXISTS." " Use the safe alternative above.").
  - eexists. repeat split; vm_compute; reflexivity.
Qed.

Lemma matched_rule_is_denied_witness :
  exists pattern reason alternative text,
    first_found "git stash" (pattern, reason, alternative)
    /\ run (main worktree_env (Parsed (bash_request (VStr "git stash"))))
       = Process [deny_output reason alternative] 0 None
    /\ hook_field "hookEventName" (deny_output reason alternative)
       = Some (VStr "PreToolUse")
    /\ hook_field "permissionDecision" (deny_output reason alternative)
       = Some (VStr "deny")
    /\ hook_field "permissionDecisionReason" (deny_output reason alternative)
       = Some (VStr text)
    /\ text = "[GIT-SAFE BLOCKED] " +:+ reason +:+ nl +:+ nl
              +:+ "Safe alternative: " +:+ alternative +:+ nl +:+ nl
              +:+ "NO BYPASS EXISTS. Use the safe alternative above."
    /\ contains "[GIT-SAFE BLOCKED]" text = true
    /\ contains reason text = true
    /\ contains alternative text = true
    /\ contains "NO BYPASS EXISTS." text = true.
Proof.
  apply (proj1 matched_rule_is_denied worktree_env _ {[ "command" := VStr "git stash" ]}
           "git stash"
           ("\bgit\s+stash\b", "git stash hides work from other agents",
            "Use 'git add -A && git commit -m " +:+ dq +:+ "WIP: ..." +:+ dq
            +:+ "' instead")); try reflexivity.
  left. reflexivity.
Defined.

(** C4 as stated fails for the fourth entry, whose pattern ends in [$]:
    "git checkout ." is found, the same text followed by a chained command
    is not, and the hook then gives no decision. *)
Lemma checkout_dot_needs_the_end :
  Re.search "\bgit\s+checkout\s+\.\s*$" "git checkout ." = Some true
  /\ Re.search "\bgit\s+checkout\s+\.\s*$" "git checkout . && git status"
     = Some false
  /\ run (main worktree_env
            (Parsed (bash_request (VStr "git checkout . && git status"))))
     = Process [] 0 None.
Proof. repeat split; vm_compute; reflexivity. Qed.

(** C4, amended. An entry found in a command [c] is still found, and the
    hook denies, when [c] stands anywhere in a longer command
    [pre ++ c ++ post], provided [pre] does not end and [post] does not
    start with a word character (operators, pipes, blanks and path
    separators do not), and, for the entry for [git checkout .] alone,
    provided nothing follows ([post] empty): that pattern is anchored at
    the end of the command. *)
Theorem found_anywhere_in_command (e : rule) (pre c post : string) :
  In e DANGEROUS_PATTERNS ->
  Re.search (pattern_of e) c = Some true ->
  ends_nonword pre -> starts_nonword post ->
  pattern_of e <> "\bgit\s+checkout\s+\.\s*$" \/ post = "" ->
  Re.search (pattern_of e) (pre +:+ c +:+ post) = Some true
  /\ exists reason alternative,
       run (main worktree_env (Parsed (bash_request (VStr (pre +:+ c +:+ post)))))
       = Process [deny_output reason alternative] 0 None.
Proof.
  intros Hin Hc Hpre Hpost Hanchor.
  assert (Hfound : Re.search (pattern_of e) (pre +:+ c +:+ post) = Some true).
  { simpl in Hin.
    repeat (destruct Hin as [<-|Hin]); try destruct Hin;
      (eapply search_embedded; [reflexivity | | exact Hpre | exact Hpost | exact Hc]);
      try (left; reflexivity).
    right. destruct Hanchor as [Hne|Hempty]; [now destruct Hne | exact Hempty]. }
  split; [exact Hfound|].
  destruct (found_is_denied _ e [] Hin Hfound) as (p & r & a & _ & Hd).
  exists r, a. apply (main_bash_request _ _ Hd).
Qed.

Lemma found_anywhere_in_command_witness :
  Re.search "\bgit\s+reset\s+--hard\b"
    ("cd /repo && " +:+ "git reset --hard" +:+ " | tee log") = Some true
  /\ exists reason alternative,
       run (main worktree_env
              (Parsed (bash_request
                 (VStr ("cd /repo && " +:+ "git reset --hard" +:+ " | tee log")))))
       = Process [deny_output reason alternative] 0 None.
Proof.
  apply (found_anywhere_in_command
           ("\bgit\s+reset\s+--hard\b",
            "git reset --hard destroys commits AND uncommitted changes",
            "Use 'git reset --soft' to keep changes, or 'git revert' to undo commits")
           "cd /repo && " "git reset --hard" " | tee log").
  - do 4 right. left. reflexivity.
  - reflexivity.
  - reflexivity.
  - reflexivity.
  - left. discriminate.
Defined.

(** C5 as stated fails in both halves for commands that merely contain the
    text: the lowercase form followed by a forced deletion is found by the
    branch-deletion entry, and the uppercase form glued to a preceding word
    character is not. *)
Lemma containing_is_not_enough :
  Re.search "\bgit\s+branch\s+-D\b" "git branch -d feature-x && git branch -D old"
  = Some true
  /\ Re.search "\bgit\s+branch\s+-D\b" "mygit branch -D feature-x" = Some false
  /\ run (main worktree_env
            (Parsed (bash_request (VStr "mygit branch -D feature-x"))))
     = Process [] 0 None.
Proof. repeat split; vm_compute; reflexivity. Qed.

(** C5, amended. Matching is case-sensitive: a command without an
    uppercase [D] is never found by the branch-deletion entry, so
    [git branch -d feature-x] gets no decision; a command containing
    [git branch -D feature-x] is found by it whenever that text is not
    directly preceded by a word character, and [git branch -D feature-x]
    itself is denied with the message of that entry. *)
Theorem branch_deletion_is_case_sensitive :
  (forall command : string,
      ~ In "D"%char (chars command) ->
      Re.search "\bgit\s+branch\s+-D\b" command = Some false)
  /\ (forall pre post : string,
        ends_nonword pre ->
        Re.search "\bgit\s+branch\s+-D\b"
          (pre +:+ "git branch -D feature-x" +:+ post) = Some true)
  /\ run (main worktree_env (Parsed (bash_request (VStr "git branch -d feature-x"))))
     = Process [] 0 None
  /\ run (main worktree_env (Parsed (bash_request (VStr "git branch -D feature-x"))))
     = Process [deny_output "git branch -D force deletes unmerged branch"
                  "Use 'git branch -d' (lowercase) which only deletes merged branches"]
               0 None.
Proof.
  split; [|split; [|split; vm_compute; reflexivity]].
  - intros command HD.
    eapply (search_lacking _ _ (Re.Lit "D")); [reflexivity | simpl; tauto |].
    intros c Hc. simpl. destruct (Ascii.eqb_spec c "D"); [now subst | reflexivity].
  - intros pre post Hpre.
    eapply search_at; [reflexivity | exact Hpre |].
    rewrite chars_app. reflexivity.
Qed.

Lemma branch_deletion_is_case_sensitive_witness :
  Re.search "\bgit\s+branch\s+-D\b" "git branch -d feature-x" = Some false
  /\ Re.search "\bgit\s+branch\s+-D\b"
       ("cd /repo; " +:+ "git branch -D feature-x" +:+ "; ls") = Some true.
Proof.
  split.
  - apply (proj1 branch_deletion_is_case_sensitive).
    vm_compute. intuition discriminate.
  - apply (proj1 (proj2 branch_deletion_is_case_sensitive)). reflexivity.
Defined.

(** C9 as stated fails: a command that contains the text after a stash is
    denied with the message of the stash entry, and one where the text is
    glued to a preceding word character gets no decision. *)
Lemma force_with_lease_other_verdicts :
  run (main worktree_env
         (Parsed (bash_request (VStr "git stash && git push --force-with-lease"))))
  = Process [deny_output "git stash hides work from other agents"
               ("Use 'git add -A && git commit -m " +:+ dq +:+ "WIP: ..." +:+ dq
                +:+ "' instead")] 0 None
  /\ "git stash hides work from other agents"
     <> "git push --force rewrites remote history"
  /\ run (main worktree_env
            (Parsed (bash_request (VStr "legit push --force-with-lease"))))
     = Process [] 0 None.
Proof. repeat split; try discriminate; vm_compute; reflexivity. Qed.

(** C9, amended. Every command that contains [git push --force-with-lease]
    not directly preceded by a word character is found by the long-form
    force-push entry (the boundary after [--force] holds at the hyphen), so
    the hook denies it; the message is that of the long-form force-push
    entry whenever none of the five entries before it is found in the
    command. *)
Theorem force_with_lease_is_blocked (pre post : string) :
  ends_nonword pre ->
  Re.search "\bgit\s+push\s+--force\b"
    (pre +:+ "git push --force-with-lease" +:+ post) = Some true
  /\ exists reason alternative,
       run (main worktree_env
              (Parsed (bash_request
                 (VStr (pre +:+ "git push --force-with-lease" +:+ post)))))
       = Process [deny_output reason alternative] 0 None
       /\ (Forall (misses (pre +:+ "git push --force-with-lease" +:+ post))
             (take 5 DANGEROUS_PATTERNS) ->
           reason = "git push --force rewrites remote history"
           /\ alternative
              = "Use 'git push' (normal push) or 'git pull --rebase' to sync").
Proof.
  intros Hpre.
  set (command := pre +:+ "git push --force-with-lease" +:+ post).
  assert (Hfound : Re.search "\bgit\s+push\s+--force\b" command = Some true).
  { eapply search_at; [reflexivity | exact Hpre |].
    rewrite chars_app. reflexivity. }
  split; [exact Hfound|].
  destruct (table_cases (take 5 DANGEROUS_PATTERNS) command) as
    [(before & p & r & a & after & Heq & Hb & Hp)|Hmiss].
  { repeat constructor; vm_compute; eauto. }
  - assert (Hd : check_command (VStr command) []
                 = (inr (Some (true, r, a)), [])).
    { unfold check_command.
      rewrite <- (take_drop 5 DANGEROUS_PATTERNS), Heq, <- app_assoc.
      now apply check_in_first. }
    exists r, a. split; [apply (main_bash_request _ _ Hd)|].
    intros Hall. rewrite Heq in Hall.
    apply Forall_app in Hall as [_ Hall]. inversion Hall as [|? ? Hm _]; subst.
    unfold misses, pattern_of in Hm. simpl in Hm. subst command.
    rewrite Hp in Hm. discriminate.
  - eexists _, _. split; [|intros _; split; reflexivity].
    apply (main_bash_request command (Some (true, _, _))).
    unfold check_command.
    rewrite <- (take_drop 5 DANGEROUS_PATTERNS).
    now apply (check_in_first (take 5 DANGEROUS_PATTERNS)
                 "\bgit\s+push\s+--force\b").
Qed.

Lemma force_with_lease_is_blocked_witness :
  Re.search "\bgit\s+push\s+--force\b"
    ("" +:+ "git push --force-with-lease" +:+ " origin main") = Some true
  /\ exists reason alternative,
       run (main worktree_env
              (Parsed (bash_request
                 (VStr ("" +:+ "git push --force-with-lease" +:+ " origin main")))))
       = Process [deny_output reason alternative] 0 None
       /\ (Forall (misses ("" +:+ "git push --force-with-lease" +:+ " origin main"))
             (take 5 DANGEROUS_PATTERNS) ->
           reason = "git push --force rewrites remote history"
           /\ alternative
              = "Use 'git push' (normal push) or 'git pull --rebase' to sync").
Proof. apply (force_with_lease_is_blocked "" " origin main"). reflexivity. Defined.

(** C10. The clean entry is found only where, after [git], blanks, [clean],
    blanks and a hyphen, a run of the letters f and d reaches an f (as in
    -f, -fd, -df, -ffd). A command [git clean -] followed by a flag cluster
    (no blanks) in which a letter other than f and d comes before any f,
    such as [git clean -xf], is found by no entry, and the hook gives no
    decision. *)
Theorem clean_cluster_needs_f_through_fd :
  (forall command : string,
      Re.search "\bgit\s+clean\s+-[fd]*f" command = Some true ->
      exists pre ws1 ws2 fd post,
        chars command
        = pre ++ chars "git" ++ ws1 ++ chars "clean" ++ ws2
              ++ chars "-" ++ fd ++ chars "f" ++ post
        /\ ws1 <> [] /\ ws2 <> []
        /\ Forall (fun c => is_space c = true) ws1
        /\ Forall (fun c => is_space c = true) ws2
        /\ Forall (fun c => c = "f"%char \/ c = "d"%char) fd)
  /\ Forall (fun command => Re.search "\bgit\s+clean\s+-[fd]*f" command = Some true)
       ["git clean -f"; "git clean -fd"; "git clean -df"; "git clean -ffd"]
  /\ (forall (ds rest : string) (x : ascii),
        Forall (fun c => c = "d"%char) (chars ds) ->
        x <> "f"%char -> x <> "d"%char ->
        Forall (fun c => is_space c = false) (x :: chars rest) ->
        Forall (misses ("git clean -" +:+ ds +:+ String x rest)) DANGEROUS_PATTERNS
        /\ run (main worktree_env
                  (Parsed (bash_request
                     (VStr ("git clean -" +:+ ds +:+ String x rest)))))
           = Process [] 0 None)
  /\ run (main worktree_env (Parsed (bash_request (VStr "git clean -xf"))))
     = Process [] 0 None.
Proof.
  split; [exact clean_rule_shape|].
  split; [repeat constructor|].
  split; [|vm_compute; reflexivity].
  intros ds rest x Hds Hf Hd Hrest.
  assert (Htail : forall c, In c (chars ds ++ x :: chars rest) ->
                            Re.in_set Re.Space c = false).
  { intros c Hc. apply in_app_or in Hc as [Hc|Hc].
    - rewrite Forall_forall in Hds. apply list_elem_of_In, Hds in Hc. now subst.
    - rewrite Forall_forall in Hrest. now apply list_elem_of_In, Hrest in Hc. }
  assert (Hall : Forall (misses ("git clean -" +:+ ds +:+ String x rest))
                   DANGEROUS_PATTERNS).
  { unfold DANGEROUS_PATTERNS, misses, pattern_of.
    repeat apply Forall_cons_2; try apply Forall_nil_2; cbn [fst];
      (eapply (search_parts _ _ Re.Space _ (chars "git clean -"));
       [ reflexivity
       | rewrite !chars_app; reflexivity
       |
       | simpl; tauto
       | exact Htail ]);
      try reflexivity.
    cbn [chars list_ascii_of_string Re.search_in app].
    change (Re.match_here _ None _)
      with (Re.repeat_set (Re.OneOf ["f"; "d"]%char)
              (Re.match_here [Re.Atom (Re.Lit "f") Re.Once])
              (Some "-"%char) (chars ds ++ x :: chars rest)).
    rewrite (cluster_without_f _ _ _ Hds Hf Hd). reflexivity. }
  split; [exact Hall|].
  apply (main_bash_request _ None). now apply check_in_none.
Qed.

Lemma clean_cluster_needs_f_through_fd_witness :
  Forall (misses ("git clean -" +:+ "d" +:+ String "x" "f")) DANGEROUS_PATTERNS
  /\ run (main worktree_env
            (Parsed (bash_request (VStr ("git clean -" +:+ "d" +:+ String "x" "f")))))
     = Process [] 0 None.
Proof.
  apply (proj1 (proj2 (proj2 clean_cluster_needs_f_through_fd)) "d" "f" "x"%char).
  - repeat constructor.
  - discriminate.
  - discriminate.
  - repeat constructor.
Defined.

(** ** Further properties of [main] *)

(** X1. A request whose tool_name is not the string "Bash" (another tool,
    a value of another type, or no tool_name at all) gets no decision,
    whatever the flag and whatever else the request holds: [tool_input] is
    not looked at, so even one that is not an object does no harm. *)
Theorem other_tools_are_not_inspected (environ : gmap string string)
    (m : gmap string value) :
  m !! "tool_name" <> Some (VStr "Bash") ->
  run (main environ (Parsed (VDict m))) = Process [] 0 None.
Proof.
  exact (other_tool environ m).
Qed.

Lemma other_tools_are_not_inspected_witness :
  run (main worktree_env
         (Parsed (VDict (<[ "tool_name" := VStr "Write" ]>
                         {[ "tool_input" := VStr "git reset --hard" ]}))))
  = Process [] 0 None
  /\ run (main worktree_env
            (Parsed (VDict {[ "tool_input" :=
                                VDict {[ "command" := VStr "git stash" ]} ]})))
     = Process [] 0 None.
Proof.
  split; apply other_tools_are_not_inspected.
  - rewrite lookup_insert_eq. discriminate.
  - rewrite lookup_singleton_ne by discriminate. discriminate.
Defined.

(** X2. A request object whose [tool_input], when present, is an object
    and whose [command], when present, is a string, always ends with
    status 0 and no exception, and what is printed is either nothing or
    exactly one deny object built from the reason and the alternative of
    an entry of the table. *)
Theorem well_formed_request_exits_zero (environ : gmap string string)
    (m : gmap string value) :
  (forall v, m !! "tool_input" = Some v ->
     exists ti : gmap string value,
       v = VDict ti /\ forall c, ti !! "command" = Some c -> exists s, c = VStr s) ->
  exit_status (run (main environ (Parsed (VDict m)))) = 0%Z
  /\ uncaught (run (main environ (Parsed (VDict m)))) = None
  /\ (stdout (run (main environ (Parsed (VDict m)))) = []
      \/ exists pattern reason alternative,
           In (pattern, reason, alternative) DANGEROUS_PATTERNS
           /\ stdout (run (main environ (Parsed (VDict m))))
              = [deny_output reason alternative]).
Proof.
  intros Hshape.
  destruct (decide (environ !! "ZEROSHOT_WORKTREE" = Some "1")) as [Henv|Henv];
    [|rewrite (inactive_flag environ _ Henv); simpl; auto].
  destruct (tool_name_cases m) as [Hname|Hname];
    [|rewrite (other_tool environ m Hname); simpl; auto].
  assert (Hti : exists ti : gmap string value,
             from_option id (VDict ∅) (m !! "tool_input") = VDict ti
             /\ exists s, from_option id (VStr "") (ti !! "command") = VStr s).
  { destruct (m !! "tool_input") as [v|] eqn:E.
    - destruct (Hshape v eq_refl) as (ti & -> & Hc). exists ti. split; [reflexivity|].
      destruct (ti !! "command") as [c|] eqn:Ec; [|now exists ""].
      destruct (Hc c eq_refl) as [s ->]. now exists s.
    - exists ∅. split; [reflexivity|]. now exists "". }
  destruct Hti as (ti & Hti & s & Hs).
  destruct (check_command_returns s []) as (res & Hres & Hcases).
  rewrite <- Hs in Hres.
  rewrite (main_checks environ m ti res Henv Hname Hti Hres).
  destruct Hcases as [[-> _]|(p & r & a & Hfirst & ->)]; simpl; auto.
  repeat split. right. exists p, r, a. split; [|reflexivity].
  now apply first_found_in with s.
Qed.

Lemma well_formed_request_exits_zero_witness :
  exit_status (run (main worktree_env (Parsed (bash_request (VStr "git add -p"))))) = 0%Z
  /\ uncaught (run (main worktree_env (Parsed (bash_request (VStr "git add -p"))))) = None
  /\ (stdout (run (main worktree_env (Parsed (bash_request (VStr "git add -p"))))) = []
      \/ exists pattern reason alternative,
           In (pattern, reason, alternative) DANGEROUS_PATTERNS
           /\ stdout (run (main worktree_env
                             (Parsed (bash_request (VStr "git add -p")))))
              = [deny_output reason alternative]).
Proof.
  apply well_formed_request_exits_zero.
  intros v Hv. unfold bash_request in Hv.
  rewrite lookup_insert_ne, lookup_singleton_eq in Hv by discriminate.
  injection Hv as <-. eexists. split; [reflexivity|].
  intros c Hc. rewrite lookup_singleton_eq in Hc. injection Hc as <-. eauto.
Defined.

(** X3. Of the environment only ZEROSHOT_WORKTREE is read, and of a request
    object only [tool_name] and the [command] of [tool_input]: two
    environments and two requests that agree on these give the same
    output, status and exception, whatever other variables and fields
    (session, working directory, description, timeout, ...) they carry. *)
Theorem other_fields_are_ignored (environ environ' : gmap string string)
    (m m' ti ti' : gmap string value) :
  environ !! "ZEROSHOT_WORKTREE" = environ' !! "ZEROSHOT_WORKTREE" ->
  m !! "tool_name" = m' !! "tool_name" ->
  m !! "tool_input" = Some (VDict ti) ->
  m' !! "tool_input" = Some (VDict ti') ->
  ti !! "command" = ti' !! "command" ->
  run (main environ (Parsed (VDict m))) = run (main environ' (Parsed (VDict m'))).
Proof.
  intros Henv Hname Hti Hti' Hcmd.
  destruct (decide (environ !! "ZEROSHOT_WORKTREE" = Some "1")) as [H1|H1].
  - destruct (tool_name_cases m) as [Hn|Hn].
    + rewrite (main_tool_input environ m H1 Hn).
      rewrite Henv in H1. rewrite Hname in Hn.
      rewrite (main_tool_input environ' m' H1 Hn).
      rewrite Hti, Hti'. cbn [from_option id]. unfold get. now rewrite Hcmd.
    + rewrite (other_tool environ m Hn). rewrite Hname in Hn.
      now rewrite (other_tool environ' m' Hn).
  - rewrite (inactive_flag environ _ H1). rewrite Henv in H1.
    now rewrite (inactive_flag environ' _ H1).
Qed.

Lemma other_fields_are_ignored_witness :
  run (main (<[ "HOME" := "/root" ]> worktree_env)
         (Parsed (VDict (<[ "session_id" := VStr "abc" ]>
                         (<[ "tool_name" := VStr "Bash" ]>
                          {[ "tool_input" :=
                               VDict (<[ "description" := VStr "tidy up" ]>
                                      {[ "command" := VStr "git clean -fd" ]}) ]})))))
  = run (main worktree_env (Parsed (bash_request (VStr "git clean -fd")))).
Proof.
  apply (other_fields_are_ignored _ _ _ _
           (<[ "description" := VStr "tidy up" ]>
            {[ "command" := VStr "git clean -fd" ]})
           {[ "command" := VStr "git clean -fd" ]});
    reflexivity.
Defined.

(** X4. With the flag set, a payload that parses to anything but an object
    (null, a boolean, a number, a string, an array) makes [main] die on
    [input_data.get]: AttributeError, status 1, nothing printed. *)
Theorem non_object_payload_raises (environ : gmap string string) (v : value) :
  environ !! "ZEROSHOT_WORKTREE" = Some "1" ->
  (forall m, v <> VDict m) ->
  run (main environ (Parsed v)) = Process [] 1 (Some AttributeError).
Proof.
  intros Henv Hv. unfold run, main. rewrite (flag_set _ Henv).
  rewrite (bind_inr _ _ [] v []) by reflexivity.
  rewrite (bind_inl _ _ [] AttributeError []); [reflexivity|].
  destruct v; try reflexivity. now destruct (Hv m).
Qed.

Lemma non_object_payload_raises_witness :
  run (main worktree_env (Parsed (VStr "git status")))
  = Process [] 1 (Some AttributeError).
Proof.
  apply non_object_payload_raises; [reflexivity | discriminate].
Defined.

(** X5. With the flag set and tool_name "Bash", a [tool_input] that is
    present but not an object makes [main] die on [tool_input.get]:
    AttributeError, status 1, nothing printed. *)
Theorem non_object_tool_input_raises (environ : gmap string string)
    (m : gmap string value) (v : value) :
  environ !! "ZEROSHOT_WORKTREE" = Some "1" ->
  m !! "tool_name" = Some (VStr "Bash") ->
  m !! "tool_input" = Some v ->
  (forall ti, v <> VDict ti) ->
  run (main environ (Parsed (VDict m))) = Process [] 1 (Some AttributeError).
Proof.
  intros Henv Hname Hti Hv.
  rewrite (main_tool_input environ m Henv Hname), Hti. unfold run.
  rewrite (bind_inl _ _ [] AttributeError []); [reflexivity|].
  destruct v; try reflexivity. now destruct (Hv m0).
Qed.

Lemma non_object_tool_input_raises_witness :
  run (main worktree_env
         (Parsed (VDict (<[ "tool_name" := VStr "Bash" ]>
                         {[ "tool_input" := VList [VStr "git"; VStr "stash"] ]}))))
  = Process [] 1 (Some AttributeError).
Proof.
  apply (non_object_tool_input_raises _ _ (VList [VStr "git"; VStr "stash"]));
    [reflexivity | reflexivity | reflexivity | discriminate].
Defined.

(** X6. With the flag set and tool_name "Bash", a [command] that is present
    but not a string (null, a boolean, a number, an array, an object)
    reaches [re.search] with the first pattern of the table and makes
    [main] die there: TypeError, status 1, nothing printed. *)
Theorem non_string_command_raises (environ : gmap string string)
    (m ti : gmap string value) (c : value) :
  environ !! "ZEROSHOT_WORKTREE" = Some "1" ->
  m !! "tool_name" = Some (VStr "Bash") ->
  m !! "tool_input" = Some (VDict ti) ->
  ti !! "command" = Some c ->
  (forall s, c <> VStr s) ->
  run (main environ (Parsed (VDict m))) = Process [] 1 (Some TypeError).
Proof.
  intros Henv Hname Hti Hcmd Hc.
  rewrite (main_tool_input environ m Henv Hname), Hti. unfold run.
  rewrite (bind_inr _ _ [] c []) by (unfold get; simpl; now rewrite Hcmd).
  rewrite (bind_inl _ _ [] TypeError []); [reflexivity|].
  now apply check_command_type_error.
Qed.

Lemma non_string_command_raises_witness :
  run (main worktree_env
         (Parsed (bash_request (VList [VStr "git"; VStr "push"; VStr "--force"]))))
  = Process [] 1 (Some TypeError).
Proof.
  apply (non_string_command_raises _ _
           {[ "command" := VList [VStr "git"; VStr "push"; VStr "--force"] ]}
           (VList [VStr "git"; VStr "push"; VStr "--force"]));
    [reflexivity | reflexivity | reflexivity | reflexivity | discriminate].
Defined.

(** ** Further properties of the table *)

(** X7. Nothing is denied that does not invoke git: when the hook prints a
    decision for a command, the command contains the word [git] (not
    directly preceded by a word character), then one or more blanks, then
    one of the eight subcommand names of the table. *)
Theorem denied_only_for_git_subcommands (command : string) :
  run (main worktree_env (Parsed (bash_request (VStr command)))) <> Process [] 0 None ->
  exists pre ws sub post,
    chars command = pre ++ chars "git" ++ ws ++ chars sub ++ post
    /\ Re.word_at (last pre) = false
    /\ ws <> [] /\ Forall (fun c => is_space c = true) ws
    /\ In sub ["stash"; "checkout"; "reset"; "push"; "clean"; "branch";
               "rebase"; "add"].
Proof.
  intros Hrun.
  destruct (check_command_returns command []) as (res & Hres & Hcases).
  rewrite (main_bash_request _ _ Hres) in Hrun.
  destruct Hcases as [[-> _]|(p & r & a & Hfirst & ->)]; [now destruct Hrun|].
  apply (found_has_git_sub (p, r, a)); [now apply first_found_in with command|].
  now destruct Hfirst as (before & after & _ & _ & Hp).
Qed.

Lemma denied_only_for_git_subcommands_witness :
  exists pre ws sub post,
    chars "cd /repo && git  rebase -i HEAD~3"
    = pre ++ chars "git" ++ ws ++ chars sub ++ post
    /\ Re.word_at (last pre) = false
    /\ ws <> [] /\ Forall (fun c => is_space c = true) ws
    /\ In sub ["stash"; "checkout"; "reset"; "push"; "clean"; "branch";
               "rebase"; "add"].
Proof.
  apply denied_only_for_git_subcommands.
  vm_compute. discriminate.
Defined.

(** X8. [git stash] in every form: the hook answers with the message of
    the stash entry exactly when the command contains [git], one or more
    blanks of any kind (spaces, tabs, newlines) and [stash], with no word
    character directly before [git] or directly after [stash]. No other
    entry can take precedence, and anything may follow (a subcommand such
    as [pop], operators, further commands). *)
Theorem stash_is_denied_in_every_form (command : string) :
  run (main worktree_env (Parsed (bash_request (VStr command))))
  = Process [deny_output "git stash hides work from other agents"
               ("Use 'git add -A && git commit -m " +:+ dq +:+ "WIP: ..." +:+ dq
                +:+ "' instead")] 0 None
  <-> exists pre ws post,
        chars command = pre ++ chars "git" ++ ws ++ chars "stash" ++ post
        /\ Re.word_at (last pre) = false
        /\ ws <> [] /\ Forall (fun c => is_space c = true) ws
        /\ Re.word_at (head post) = false.
Proof.
  rewrite <- stash_found_iff. split.
  - intros Hrun.
    destruct (check_command_returns command []) as (res & Hres & Hcases).
    rewrite (main_bash_request _ _ Hres) in Hrun.
    destruct Hcases as [[-> _]|(p & r & a & Hfirst & ->)]; [discriminate|].
    pose proof (first_found_in _ _ Hfirst) as Hin.
    destruct Hfirst as (_ & _ & _ & _ & Hp). unfold pattern_of in Hp. simpl in Hp.
    apply (f_equal (fun p => hook_field "permissionDecisionReason"
                               <$> head (stdout p))) in Hrun.
    simpl in Hin.
    repeat (destruct Hin as [Hin|Hin]; [injection Hin as <- <- <-|]);
      try destruct Hin; try exact Hp;
      vm_compute in Hrun; discriminate.
  - intros Hfound.
    apply (main_bash_request command (Some (true, _, _))).
    now apply (check_in_first []).
Qed.

Lemma stash_is_denied_in_every_form_witness :
  run (main worktree_env
         (Parsed (bash_request (VStr ("cd /repo;" +:+ "git" +:+ "  " +:+ "stash"
                                      +:+ " pop")))))
  = Process [deny_output "git stash hides work from other agents"
               ("Use 'git add -A && git commit -m " +:+ dq +:+ "WIP: ..." +:+ dq
                +:+ "' instead")] 0 None.
Proof.
  apply (proj2 (stash_is_denied_in_every_form _)).
  exists (chars "cd /repo;"), (chars "  "), (chars " pop").
  repeat split; try reflexivity; [discriminate | repeat constructor].
Defined.

(** X9. The entry for [git checkout .] is found exactly when the command
    contains [git], blanks, [checkout], blanks and a dot (no word character
    directly before [git]) and nothing but blanks follows the dot up to the
    end of the command: a path that merely starts with a dot, or a further
    command after it, is not found by this entry. *)
Theorem checkout_dot_only_at_the_end (command : string) :
  Re.search "\bgit\s+checkout\s+\.\s*$" command = Some true
  <-> exists pre ws1 ws2 ws3,
        chars command
        = pre ++ chars "git" ++ ws1 ++ chars "checkout" ++ ws2 ++ chars "." ++ ws3
        /\ Re.word_at (last pre) = false
        /\ ws1 <> [] /\ ws2 <> []
        /\ Forall (fun c => is_space c = true) ws1
        /\ Forall (fun c => is_space c = true) ws2
        /\ Forall (fun c => is_space c = true) ws3.
Proof.
  rewrite (search_sem "\bgit\s+checkout\s+\.\s*$"
             (Re.WordBoundary :: Re.lits "git"
                ++ Re.Atom Re.Space Re.Plus :: Re.lits "checkout"
                ++ [Re.Atom Re.Space Re.Plus; Re.Atom (Re.Lit ".") Re.Once;
                    Re.Atom Re.Space Re.Star; Re.EndAnchor]) command eq_refl).
  split.
  - intros (pre & w & rest & Hcmd & Hsem).
    apply sem_git_sub_iff in Hsem as (Hpre & ws & w' & -> & Hne & Hws & Hsem).
    destruct Hsem as (c & u & w2 & -> & Hc & Hu & c' & w3 & -> & Hdot
                      & u3 & w4 & -> & Hu3 & Hend & ->).
    apply Ascii.eqb_eq in Hdot as ->. rewrite app_nil_r in *.
    exists pre, ws, (c :: u), (u3 ++ rest). rewrite word_at_prev_after in Hpre.
    repeat split; auto; try discriminate.
    + rewrite Hcmd. simpl. rewrite <- !app_assoc. simpl.
      do 9 f_equal. rewrite <- !app_assoc. reflexivity.
    + apply Forall_app. split; [exact Hu3|].
      simpl in Hend. destruct rest as [|x [|y rest]]; try discriminate;
        [constructor|]. apply Ascii.eqb_eq in Hend as ->. now repeat constructor.
  - intros (pre & ws1 & ws2 & ws3 & Hcmd & Hpre & Hne1 & Hne2 & H1 & H2 & H3).
    destruct ws2 as [|c u]; [now destruct Hne2|].
    inversion H2 as [|? ? Hc Hu]; subst.
    exists pre, (chars "git" ++ ws1 ++ chars "checkout"
                 ++ (c :: u ++ "."%char :: ws3 ++ [])), [].
    split.
    + rewrite Hcmd, !app_nil_r. reflexivity.
    + apply sem_git_sub_iff. rewrite word_at_prev_after. split; [exact Hpre|].
      exists ws1, (c :: u ++ "."%char :: ws3 ++ []).
      repeat split; auto.
      exists c, u, ("."%char :: ws3 ++ []). repeat split; auto.
      exists "."%char, (ws3 ++ []). repeat split.
      exists ws3, []. repeat split; auto.
Qed.

Lemma checkout_dot_only_at_the_end_witness :
  Re.search "\bgit\s+checkout\s+\.\s*$" ("git checkout ." +:+ "  ") = Some true.
Proof.
  apply (proj2 (checkout_dot_only_at_the_end _)).
  exists [], (chars " "), (chars " "), (chars "  ").
  repeat split; try reflexivity; try discriminate; repeat constructor.
Defined.

(** X10. The clean entry is found exactly when the command contains [git],
    blanks, [clean], blanks, a hyphen and a run of the letters f and d
    that ends in f, with no word character directly before [git]; whatever
    follows the f (more flag letters as in -fx, paths, further commands)
    makes no difference, and the hook then denies the command. *)
Theorem clean_cluster_reaching_f_is_denied (command : string) :
  (Re.search "\bgit\s+clean\s+-[fd]*f" command = Some true
   <-> exists pre ws1 ws2 fd post,
         chars command
         = pre ++ chars "git" ++ ws1 ++ chars "clean" ++ ws2
               ++ chars "-" ++ fd ++ chars "f" ++ post
         /\ Re.word_at (last pre) = false
         /\ ws1 <> [] /\ ws2 <> []
         /\ Forall (fun c => is_space c = true) ws1
         /\ Forall (fun c => is_space c = true) ws2
         /\ Forall (fun c => c = "f"%char \/ c = "d"%char) fd)
  /\ (Re.search "\bgit\s+clean\s+-[fd]*f" command = Some true ->
      exists reason alternative,
        run (main worktree_env (Parsed (bash_request (VStr command))))
        = Process [deny_output reason alternative] 0 None).
Proof.
  split.
  - rewrite (search_sem "\bgit\s+clean\s+-[fd]*f"
               (Re.WordBoundary :: Re.lits "git"
                  ++ Re.Atom Re.Space Re.Plus :: Re.lits "clean"
                  ++ [Re.Atom Re.Space Re.Plus; Re.Atom (Re.Lit "-") Re.Once;
                      Re.Atom (Re.OneOf ["f"; "d"]%char) Re.Star;
                      Re.Atom (Re.Lit "f") Re.Once]) command eq_refl).
    assert (Hfd : forall c, Re.in_set (Re.OneOf ["f"; "d"]%char) c = true
                            <-> c = "f"%char \/ c = "d"%char).
    { intros c. simpl. rewrite orb_false_r, orb_true_iff, !Ascii.eqb_eq. tauto. }
    split.
    + intros (pre & w & rest & Hcmd & Hsem).
      apply sem_git_sub_iff in Hsem as (Hpre & ws & w' & -> & Hne & Hws & Hsem).
      destruct Hsem as (c & u & w2 & -> & Hc & Hu & c' & w3 & -> & Hdash
                        & fd & w4 & -> & Hfdl & c'' & w5 & -> & Hf & ->).
      apply Ascii.eqb_eq in Hdash as ->. apply Ascii.eqb_eq in Hf as ->.
      exists pre, ws, (c :: u), fd, rest. rewrite word_at_prev_after in Hpre.
      repeat split; auto; try discriminate.
      * rewrite Hcmd.
        repeat first [rewrite <- app_assoc | rewrite <- app_comm_cons
                      | progress simpl].
        reflexivity.
      * eapply Forall_impl; [exact Hfdl|]. intros x Hx. now apply Hfd.
    + intros (pre & ws1 & ws2 & fd & post & Hcmd & Hpre & Hne1 & Hne2
              & H1 & H2 & H3).
      destruct ws2 as [|c u]; [now destruct Hne2|].
      inversion H2 as [|? ? Hc Hu]; subst.
      exists pre, (chars "git" ++ ws1 ++ chars "clean"
                   ++ (c :: u ++ "-"%char :: fd ++ ["f"%char])), post.
      split.
      * rewrite Hcmd.
        repeat first [rewrite <- app_assoc | rewrite <- app_comm_cons
                      | progress simpl].
        reflexivity.
      * apply sem_git_sub_iff. rewrite word_at_prev_after. split; [exact Hpre|].
        exists ws1, (c :: u ++ "-"%char :: fd ++ ["f"%char]).
        repeat split; auto.
        exists c, u, ("-"%char :: fd ++ ["f"%char]). repeat split; auto.
        exists "-"%char, (fd ++ ["f"%char]). repeat split.
        exists fd, ["f"%char]. repeat split.
        -- eapply Forall_impl; [exact H3|]. intros x Hx. now apply Hfd.
        -- exists "f"%char, []. repeat split.
  - intros Hfound.
    destruct (found_is_denied command
                ("\bgit\s+clean\s+-[fd]*f",
                 "git clean -f deletes untracked files permanently",
                 "Use 'git clean -n' (dry run) first to see what would be deleted")
                []) as (p & r & a & _ & Hd); [simpl; tauto | exact Hfound |].
    exists r, a. apply (main_bash_request _ _ Hd).
Qed.

Lemma clean_cluster_reaching_f_is_denied_witness :
  exists reason alternative,
    run (main worktree_env (Parsed (bash_request (VStr "sudo git clean -ddfx build"))))
    = Process [deny_output reason alternative] 0 None.
Proof.
  apply (proj2 (clean_cluster_reaching_f_is_denied _)).
  apply (proj2 (proj1 (clean_cluster_reaching_f_is_denied _))).
  exists (chars "sudo "), (chars " "), (chars " "), (chars "dd"), (chars "x build").
  split; [reflexivity|]. split; [reflexivity|].
  split; [discriminate|]. split; [discriminate|].
  split; [repeat constructor|]. split; [repeat constructor|].
  constructor; [now right|]. constructor; [now right | constructor].
Defined.

(** X11. The entries that end in a word boundary do not see their flag when
    a word character follows it directly: [git <sub> <flag>] with another
    letter, digit or underscore glued to the flag (as in [git push -fu] or
    [git add -pi]) and nothing but a blank-free rest after it is found by
    no entry, and the hook gives no decision. *)
Theorem flag_glued_to_a_word_character_passes (sub flag : string) (w : ascii)
    (rest : string) :
  In (sub, flag) [("checkout", "-f"); ("reset", "--hard"); ("push", "--force");
                  ("push", "-f"); ("branch", "-D"); ("rebase", "-i");
                  ("add", "-i"); ("add", "-p")] ->
  is_word w = true ->
  Forall (fun c => is_space c = false) (chars rest) ->
  Forall (misses ("git " +:+ sub +:+ " " +:+ flag +:+ String w rest))
    DANGEROUS_PATTERNS
  /\ run (main worktree_env
            (Parsed (bash_request
               (VStr ("git " +:+ sub +:+ " " +:+ flag +:+ String w rest)))))
     = Process [] 0 None.
Proof.
  intros Hin Hw Hrest.
  assert (Htail : forall c, In c (w :: chars rest) -> Re.in_set Re.Space c = false).
  { intros c [<-|Hc]; [now apply word_is_not_space|].
    rewrite Forall_forall in Hrest. now apply list_elem_of_In, Hrest in Hc. }
  assert (Hall : Forall (misses ("git " +:+ sub +:+ " " +:+ flag +:+ String w rest))
                   DANGEROUS_PATTERNS).
  { simpl in Hin.
    repeat (destruct Hin as [Hin|Hin]; [injection Hin as <- <-|]);
      try destruct Hin;
      unfold DANGEROUS_PATTERNS, misses, pattern_of;
      repeat apply Forall_cons_2; try apply Forall_nil_2; cbn [fst];
        (match goal with
         | |- Re.search _ ("git " +:+ ?s +:+ " " +:+ ?f +:+ _) = _ =>
             eapply (search_parts _ _ Re.Space _
                       (chars ("git " +:+ s +:+ " " +:+ f)) (w :: chars rest))
         end;
         [ reflexivity
         | reflexivity
         |
         | simpl; tauto
         | exact Htail ]);
        first [ reflexivity
              | simpl; unfold Re.at_boundary, Re.word_at; cbn [head];
                rewrite Hw; reflexivity ]. }
  split; [exact Hall|].
  apply (main_bash_request _ None). now apply check_in_none.
Qed.

Lemma flag_glued_to_a_word_character_passes_witness :
  Forall (misses ("git " +:+ "push" +:+ " " +:+ "-f" +:+ String "u" ""))
    DANGEROUS_PATTERNS
  /\ run (main worktree_env
            (Parsed (bash_request
               (VStr ("git " +:+ "push" +:+ " " +:+ "-f" +:+ String "u" "")))))
     = Process [] 0 None.
Proof.
  apply (flag_glued_to_a_word_character_passes "push" "-f" "u"%char "").
  - do 3 right. left. reflexivity.
  - reflexivity.
  - constructor.
Defined.

(** X12. The entry for [git checkout -- <file>] is found exactly when the
    command contains [git], blanks, [checkout], blanks, two hyphens,
    blanks and then at least one character that is not a blank, with no
    word character directly before [git]: [git checkout --] with nothing
    but blanks after it is not found by this entry. *)
Theorem checkout_path_needs_a_path (command : string) :
  Re.search "\bgit\s+checkout\s+--\s+\S+" command = Some true
  <-> exists pre ws1 ws2 ws3 x post,
        chars command
        = pre ++ chars "git" ++ ws1 ++ chars "checkout" ++ ws2 ++ chars "--"
              ++ ws3 ++ x :: post
        /\ Re.word_at (last pre) = false
        /\ ws1 <> [] /\ ws2 <> [] /\ ws3 <> []
        /\ Forall (fun c => is_space c = true) ws1
        /\ Forall (fun c => is_space c = true) ws2
        /\ Forall (fun c => is_space c = true) ws3
        /\ is_space x = false.
Proof.
  rewrite (search_sem "\bgit\s+checkout\s+--\s+\S+"
             (Re.WordBoundary :: Re.lits "git"
                ++ Re.Atom Re.Space Re.Plus :: Re.lits "checkout"
                ++ [Re.Atom Re.Space Re.Plus; Re.Atom (Re.Lit "-") Re.Once;
                    Re.Atom (Re.Lit "-") Re.Once; Re.Atom Re.Space Re.Plus;
                    Re.Atom Re.NotSpace Re.Plus]) command eq_refl).
  split.
  - intros (pre & w & rest & Hcmd & Hsem).
    apply sem_git_sub_iff in Hsem as (Hpre & ws & w' & -> & Hne & Hws & Hsem).
    destruct Hsem as (c & u & w2 & -> & Hc & Hu & d1 & w3 & -> & Hd1
                      & d2 & w4 & -> & Hd2 & c3 & u3 & w5 & -> & Hc3 & Hu3
                      & x & u4 & w6 & -> & Hx & Hu4 & ->).
    apply Ascii.eqb_eq in Hd1 as ->. apply Ascii.eqb_eq in Hd2 as ->.
    exists pre, ws, (c :: u), (c3 :: u3), x, (u4 ++ rest).
    rewrite word_at_prev_after in Hpre.
    repeat split; auto; try discriminate.
    + rewrite Hcmd.
      repeat first [rewrite <- app_assoc | rewrite <- app_comm_cons
                    | progress simpl].
      reflexivity.
    + simpl in Hx. now destruct (is_space x).
  - intros (pre & ws1 & ws2 & ws3 & x & post & Hcmd & Hpre & Hne1 & Hne2 & Hne3
            & H1 & H2 & H3 & Hx).
    destruct ws2 as [|c u]; [now destruct Hne2|].
    destruct ws3 as [|c3 u3]; [now destruct Hne3|].
    inversion H2 as [|? ? Hc Hu]; inversion H3 as [|? ? Hc3 Hu3]; subst.
    exists pre, (chars "git" ++ ws1 ++ chars "checkout"
                 ++ (c :: u ++ "-"%char :: "-"%char :: c3 :: u3 ++ x :: [] ++ [])),
      post.
    split.
    + rewrite Hcmd.
      repeat first [rewrite <- app_assoc | rewrite <- app_comm_cons
                    | progress simpl].
      reflexivity.
    + apply sem_git_sub_iff. rewrite word_at_prev_after. split; [exact Hpre|].
      exists ws1, (c :: u ++ "-"%char :: "-"%char :: c3 :: u3 ++ x :: [] ++ []).
      repeat split; auto.
      exists c, u, ("-"%char :: "-"%char :: c3 :: u3 ++ x :: [] ++ []).
      repeat split; auto.
      exists "-"%char, ("-"%char :: c3 :: u3 ++ x :: [] ++ []). repeat split.
      exists "-"%char, (c3 :: u3 ++ x :: [] ++ []). repeat split.
      exists c3, u3, (x :: [] ++ []). repeat split; auto.
      exists x, [], []. repeat split; auto.
      simpl. now rewrite Hx.
Qed.

Lemma checkout_path_needs_a_path_witness :
  Re.search "\bgit\s+checkout\s+--\s+\S+" "git checkout -- src/main.py" = Some true.
Proof.
  apply (proj2 (checkout_path_needs_a_path _)).
  exists [], (chars " "), (chars " "), (chars " "), "s"%char, (chars "rc/main.py").
  repeat split; try reflexivity; try discriminate; repeat constructor.
Defined.
